(** * zerofreeMT: the multithreaded free-block sweep of [zerofree.c]

    A shallow embedding of [src/zerofree.c] (worker_thread and main) as a
    labelled transition system over the program's globals, and the
    properties of the sweep stated over its reachable states.

    Conventions of the model.
    - The C data model is LP64: [int] and [unsigned int] are 32 bits wide,
      [long] and [unsigned long] 64 bits wide.
    - Every region of code executed while holding [mutex] is one step
      (mutual exclusion makes it atomic with respect to every other such
      region).  Accesses to shared variables made without the mutex are
      steps of their own: a read and a write are two steps.
    - [while (!P) pthread_cond_wait(..)] is a step that is enabled when [P]
      holds; a thread whose step is [None] is blocked.  [pthread_join] is
      enabled when the joined thread has returned.
    - Line 117 unlocks the mutex; when line 116 was reached by [goto] the
      thread does not hold it, and the model gives that call no effect.
    - [pthread_create] is taken to succeed.
    - The progress display of lines 75-80 is left out: it reads the
      [double] [percent] and [old_percent] without the mutex and prints a
      formatted [double].  Only a run with [-v] executes it, so [stderr]
      holds the error messages of lines 84, 105 and 263, which is all a
      run without [-v] writes there during and after the sweep.
    - [handoff] and [io_log] are instrumentation: the jobs claimed, as
      (worker, value of the slot), and the calls made to the volume.
    - Line numbers refer to [src/zerofree.c]. *)

From Stdlib Require Import ZArith String Ascii Bool.
From stdpp Require Import base tactics option list numbers.

Local Open Scope Z_scope.

(** ** C integer conversions *)

Definition to_uchar (x : Z) : Z := x mod 2 ^ 8.
Definition to_uint (x : Z) : Z := x mod 2 ^ 32.
Definition to_ulong (x : Z) : Z := x mod 2 ^ 64.
(** Conversion to a signed 32-bit [int] (two's complement, as gcc does). *)
Definition to_int (x : Z) : Z := (x + 2 ^ 31) mod 2 ^ 32 - 2 ^ 31.
(** Conversion to a signed 64-bit [long]. *)
Definition to_long (x : Z) : Z := (x + 2 ^ 63) mod 2 ^ 64 - 2 ^ 63.

(** ** The volume, the device and the options *)

(** What the sweep reads of [ext2_filsys]: [fs->blocksize], three fields of
    [fs->super], and the block bitmap ([ext2fs_test_block_bitmap] is non-zero
    for a block in use). *)
Record ext2_filsys := {
  fs_blocksize : Z;
  s_first_data_block : Z;
  s_blocks_count : Z;
  s_free_blocks_count : Z;
  block_map : Z -> bool
}.

(** The environment: which block reads and writes fail, and whether
    [ext2fs_close] fails. *)
Record device := {
  read_fails : Z -> bool;
  write_fails : Z -> bool;
  close_fails : bool
}.

(** The globals set by the option loop of main (lines 133-171). *)
Record options := {
  dryrun : Z;
  verbose : Z;
  fillval : Z;
  max_threads : Z
}.

(** ** Program points *)

(** worker_thread.  A worker at [WWait] is blocked in
    [pthread_cond_wait(&job_enqueued, ..)] (line 55); the other points are
    reached without the mutex, except [WStart] (before line 50). *)
Inductive wpc :=
| WStart
| WWait
| WTest (blk : Z)          (* line 65 *)
| WCount (blk : Z)         (* lines 69-73 *)
| WRead (blk : Z)          (* lines 82-96 *)
| WMod (blk : Z)           (* lines 98-102 *)
| WWrite (blk : Z)         (* lines 103-108 *)
| WAgain                   (* lines 110-112 *)
| WFinish                  (* line 116 reached by goto, mutex not held:
                              read of runningThreads *)
| WFinishStore (v : Z)     (* line 116: write of runningThreads; 117, 118 *)
| WDone.

(** main, from line 236 on. *)
Inductive mpc :=
| MLoop (blk : Z)          (* line 236: loop test, then 237-244 or 247-250 *)
| MAccepted (blk : Z)      (* lines 243-245: waiting for job_accepted *)
| MJoin (i : Z)            (* lines 251-255, then 257-267 *)
| MExit (code : Z).

Inductive io_event :=
| TestBitmap (w : nat) (blk : Z)
| ReadBlk (w : nat) (blk : Z) (ok : bool)
| WriteBlk (w : nat) (blk : Z) (ok : bool).

(** [percent] is a double: the model keeps the two operands of the
    division and does not round. *)
Record ratio := { num : Z; den : Z }.

Record state := {
  quit : Z;
  do_job : Z;
  job_block_num : Z;
  runningThreads : Z;
  freeBlocks : Z;
  modifiedBlocks : Z;
  percent : ratio;
  disk : Z -> list Z;
  main_pc : mpc;
  workers : list wpc;
  (* instrumentation *)
  handoff : list (nat * Z);
  io_log : list io_event;
  stderr : list string;
  summary : option (Z * Z * Z)
}.

Definition set_quit v s :=
  {| quit := v; do_job := do_job s; job_block_num := job_block_num s;
     runningThreads := runningThreads s; freeBlocks := freeBlocks s;
     modifiedBlocks := modifiedBlocks s; percent := percent s; disk := disk s;
     main_pc := main_pc s; workers := workers s; handoff := handoff s;
     io_log := io_log s; stderr := stderr s; summary := summary s |}.
Definition set_do_job v s :=
  {| quit := quit s; do_job := v; job_block_num := job_block_num s;
     runningThreads := runningThreads s; freeBlocks := freeBlocks s;
     modifiedBlocks := modifiedBlocks s; percent := percent s; disk := disk s;
     main_pc := main_pc s; workers := workers s; handoff := handoff s;
     io_log := io_log s; stderr := stderr s; summary := summary s |}.
Definition set_job_block_num v s :=
  {| quit := quit s; do_job := do_job s; job_block_num := v;
     runningThreads := runningThreads s; freeBlocks := freeBlocks s;
     modifiedBlocks := modifiedBlocks s; percent := percent s; disk := disk s;
     main_pc := main_pc s; workers := workers s; handoff := handoff s;
     io_log := io_log s; stderr := stderr s; summary := summary s |}.
Definition set_runningThreads v s :=
  {| quit := quit s; do_job := do_job s; job_block_num := job_block_num s;
     runningThreads := v; freeBlocks := freeBlocks s;
     modifiedBlocks := modifiedBlocks s; percent := percent s; disk := disk s;
     main_pc := main_pc s; workers := workers s; handoff := handoff s;
     io_log := io_log s; stderr := stderr s; summary := summary s |}.
Definition set_freeBlocks v p s :=
  {| quit := quit s; do_job := do_job s; job_block_num := job_block_num s;
     runningThreads := runningThreads s; freeBlocks := v;
     modifiedBlocks := modifiedBlocks s; percent := p; disk := disk s;
     main_pc := main_pc s; workers := workers s; handoff := handoff s;
     io_log := io_log s; stderr := stderr s; summary := summary s |}.
Definition set_modifiedBlocks v s :=
  {| quit := quit s; do_job := do_job s; job_block_num := job_block_num s;
     runningThreads := runningThreads s; freeBlocks := freeBlocks s;
     modifiedBlocks := v; percent := percent s; disk := disk s;
     main_pc := main_pc s; workers := workers s; handoff := handoff s;
     io_log := io_log s; stderr := stderr s; summary := summary s |}.
Definition set_disk d s :=
  {| quit := quit s; do_job := do_job s; job_block_num := job_block_num s;
     runningThreads := runningThreads s; freeBlocks := freeBlocks s;
     modifiedBlocks := modifiedBlocks s; percent := percent s; disk := d;
     main_pc := main_pc s; workers := workers s; handoff := handoff s;
     io_log := io_log s; stderr := stderr s; summary := summary s |}.
Definition set_main_pc p s :=
  {| quit := quit s; do_job := do_job s; job_block_num := job_block_num s;
     runningThreads := runningThreads s; freeBlocks := freeBlocks s;
     modifiedBlocks := modifiedBlocks s; percent := percent s; disk := disk s;
     main_pc := p; workers := workers s; handoff := handoff s;
     io_log := io_log s; stderr := stderr s; summary := summary s |}.
Definition set_pc (w : nat) (p : wpc) s :=
  {| quit := quit s; do_job := do_job s; job_block_num := job_block_num s;
     runningThreads := runningThreads s; freeBlocks := freeBlocks s;
     modifiedBlocks := modifiedBlocks s; percent := percent s; disk := disk s;
     main_pc := main_pc s; workers := <[w := p]> (workers s);
     handoff := handoff s; io_log := io_log s; stderr := stderr s;
     summary := summary s |}.
Definition add_handoff (h : nat * Z) s :=
  {| quit := quit s; do_job := do_job s; job_block_num := job_block_num s;
     runningThreads := runningThreads s; freeBlocks := freeBlocks s;
     modifiedBlocks := modifiedBlocks s; percent := percent s; disk := disk s;
     main_pc := main_pc s; workers := workers s; handoff := handoff s ++ [h];
     io_log := io_log s; stderr := stderr s; summary := summary s |}.
Definition add_io (e : io_event) s :=
  {| quit := quit s; do_job := do_job s; job_block_num := job_block_num s;
     runningThreads := runningThreads s; freeBlocks := freeBlocks s;
     modifiedBlocks := modifiedBlocks s; percent := percent s; disk := disk s;
     main_pc := main_pc s; workers := workers s; handoff := handoff s;
     io_log := io_log s ++ [e]; stderr := stderr s; summary := summary s |}.
Definition add_stderr (m : string) s :=
  {| quit := quit s; do_job := do_job s; job_block_num := job_block_num s;
     runningThreads := runningThreads s; freeBlocks := freeBlocks s;
     modifiedBlocks := modifiedBlocks s; percent := percent s; disk := disk s;
     main_pc := main_pc s; workers := workers s; handoff := handoff s;
     io_log := io_log s; stderr := stderr s ++ [m]; summary := summary s |}.
Definition set_summary (r : option (Z * Z * Z)) s :=
  {| quit := quit s; do_job := do_job s; job_block_num := job_block_num s;
     runningThreads := runningThreads s; freeBlocks := freeBlocks s;
     modifiedBlocks := modifiedBlocks s; percent := percent s; disk := disk s;
     main_pc := main_pc s; workers := workers s; handoff := handoff s;
     io_log := io_log s; stderr := stderr s; summary := r |}.

(** ** The fill predicate (lines 88-96) *)

(** [for (i = 0; i < fs->blocksize; ++i) if (buf[i] != fillval) break;]
    started at index [i] with [n] iterations left; the result is the final
    value of [i]. *)
Fixpoint scan (buf : list Z) (fill : Z) (i : nat) (n : nat) : nat :=
  match n with
  | O => i
  | S n' => if negb (nth i buf 0 =? fill) then i else scan buf fill (S i) n'
  end.

(** [i == fs->blocksize] after the loop. *)
Definition already_filled (bs : Z) (fill : Z) (buf : list Z) : bool :=
  Z.of_nat (scan buf fill 0 (Z.to_nat bs)) =? bs.

(** [memset(empty, fillval, fs->blocksize)] (line 207). *)
Definition empty (bs : Z) (fill : Z) : list Z :=
  replicate (Z.to_nat bs) (to_uchar fill).

Definition write_disk (d : Z -> list Z) (blk : Z) (buf : list Z) : Z -> list Z :=
  fun b => if b =? blk then buf else d b.

(** ** Sums over the worker table and over lists of blocks *)

Fixpoint sumZ {A} (f : A -> Z) (l : list A) : Z :=
  match l with
  | [] => 0
  | x :: l' => f x + sumZ f l'
  end.

(** ** Program points and events *)

(** The points from the label [finish] on (lines 115-118). *)
Definition on_finish (pc : wpc) : bool :=
  match pc with
  | WFinish | WFinishStore _ | WDone => true
  | _ => false
  end.

(** A worker between lines 62 and 111 owns a job. *)
Definition active (pc : wpc) : Z :=
  match pc with
  | WTest _ | WCount _ | WRead _ | WMod _ | WWrite _ | WAgain => 1
  | _ => 0
  end.

(** The block of the job a worker is processing. *)
Definition cur_blk (pc : wpc) : option Z :=
  match pc with
  | WTest b | WCount b | WRead b | WMod b | WWrite b => Some b
  | _ => None
  end.

Definition ev_worker (e : io_event) : nat :=
  match e with TestBitmap w _ | ReadBlk w _ _ | WriteBlk w _ _ => w end.
Definition ev_blk (e : io_event) : Z :=
  match e with TestBitmap _ b | ReadBlk _ b _ | WriteBlk _ b _ => b end.

(** What a worker prints after a call (lines 84 and 105). *)
Definition ev_msg (e : io_event) : option string :=
  match e with
  | ReadBlk _ _ false => Some "error while reading block"%string
  | WriteBlk _ _ false => Some "error while writing block"%string
  | _ => None
  end.

(** What main has printed at the end (line 263). *)
Definition close_msg (pc : mpc) : list string :=
  match pc with
  | MExit c =>
      if c =? 0 then [] else ["error while closing filesystem"%string]
  | _ => []
  end.

(** The number of steps a worker at [pc] can still take without a new job,
    and the weight of main's program point: the terms of the variant
    [steps_left] below. *)
Definition pc_weight (pc : wpc) : Z :=
  match pc with
  | WDone => 0
  | WFinishStore _ | WWait => 1
  | WFinish | WStart | WAgain => 2
  | WWrite _ => 3
  | WMod _ => 4
  | WRead _ => 5
  | WCount _ => 6
  | WTest _ => 7
  end.

Definition main_weight (count threads : Z) (pc : mpc) : Z :=
  match pc with
  | MLoop blk => 2 * Z.max 0 (count - blk) + threads + 2
  | MAccepted blk => 2 * Z.max 0 (count - blk) + threads + 1
  | MJoin i => Z.max 0 (threads - i) + 1
  | MExit _ => 0
  end.

Inductive label := Main | Worker (w : nat).

(** ** The C library's strtol, base 0, with a 64-bit long *)

Definition char_code (c : ascii) : Z := Z.of_N (N_of_ascii c).

(** isspace in the C locale. *)
Definition is_space (c : ascii) : bool :=
  let n := char_code c in (n =? 32) || ((9 <=? n) && (n <=? 13)).

Definition digit_val (c : ascii) : option Z :=
  let n := char_code c in
  if (48 <=? n) && (n <=? 57) then Some (n - 48)
  else if (97 <=? n) && (n <=? 122) then Some (n - 97 + 10)
  else if (65 <=? n) && (n <=? 90) then Some (n - 65 + 10)
  else None.

Fixpoint skip_space (s : string) : string :=
  match s with
  | String c r => if is_space c then skip_space r else s
  | EmptyString => s
  end.

(** Longest prefix of digits of the base: value, rest, and whether any digit
    was read. *)
Fixpoint digits (base : Z) (s : string) (acc : Z) (any : bool)
  : Z * string * bool :=
  match s with
  | String c r =>
      match digit_val c with
      | Some d => if d <? base then digits base r (acc * base + d) true
                  else (acc, s, any)
      | None => (acc, s, any)
      end
  | EmptyString => (acc, s, any)
  end.

Definition LONG_MAX : Z := 2 ^ 63 - 1.
Definition LONG_MIN : Z := - 2 ^ 63.

Definition is_hex_digit (s : string) : bool :=
  match s with
  | String c _ => match digit_val c with Some d => d <? 16 | None => false end
  | EmptyString => false
  end.

(** [strtol(nptr, &endptr, 0)]: the value and the string at [endptr]. *)
Definition strtol (nptr : string) : Z * string :=
  let s1 := skip_space nptr in
  let '(neg, s2) :=
    match s1 with
    | String c r =>
        if char_code c =? 45 then (true, r)
        else if char_code c =? 43 then (false, r)
        else (false, s1)
    | EmptyString => (false, s1)
    end in
  let '(base, s3) :=
    match s2 with
    | String c0 (String cx r) =>
        if (char_code c0 =? 48) &&
           ((char_code cx =? 120) || (char_code cx =? 88)) &&
           is_hex_digit r
        then (16, r)
        else if char_code c0 =? 48 then (8, s2) else (10, s2)
    | String c0 EmptyString =>
        if char_code c0 =? 48 then (8, s2) else (10, s2)
    | EmptyString => (10, s2)
    end in
  let '(v, rest, any) := digits base s3 0 false in
  if any then
    let sv := if neg : bool then - v else v in
    (Z.max LONG_MIN (Z.min LONG_MAX sv), rest)
  else (0, nptr).

(** ** main before the sweep (lines 121-233) *)

(** Constants of [<ext2fs/ext2fs.h>]. *)
Definition EXT2_FLAG_RW : Z := 1.
Definition EXT2_MF_MOUNTED : Z := 1.
Definition EXT2_MF_READONLY : Z := 4.

(** The initial values of the option globals (lines 40-42, 130). *)
Definition default_options : options :=
  {| dryrun := 0; verbose := 0; fillval := 0; max_threads := 1 |}.

Definition is_empty (s : string) : bool :=
  match s with EmptyString => true | _ => false end.

Definition USAGE : string :=
  "usage: zerofree [-n] [-v] [-f fillval] [-t max_threads] filesystem".

Inductive opt_result :=
| Rejected (msg : string)
| Accepted (o : options).

(** The body of the switch (lines 134-170) for one return value [c] of
    getopt with its [optarg].  [fillval] is an [unsigned int] and
    [max_threads] an [int]: the [long] returned by strtol is converted by
    the assignment, before the range test. *)
Definition handle_option (c : ascii) (optarg : string) (o : options)
  : opt_result :=
  if Ascii.eqb c "n" then
    Accepted {| dryrun := 1; verbose := verbose o; fillval := fillval o;
                max_threads := max_threads o |}
  else if Ascii.eqb c "v" then
    Accepted {| dryrun := dryrun o; verbose := 1; fillval := fillval o;
                max_threads := max_threads o |}
  else if Ascii.eqb c "f" then
    let '(v, endptr) := strtol optarg in
    let fv := to_uint v in
    if is_empty optarg || negb (is_empty endptr)
    then Rejected "invalid argument to -f"
    else if fv >? 255 then Rejected "fill value must be 0-255"
    else Accepted {| dryrun := dryrun o; verbose := verbose o; fillval := fv;
                     max_threads := max_threads o |}
  else if Ascii.eqb c "t" then
    let '(v, endptr) := strtol optarg in
    let mt := to_int v in
    if is_empty optarg || negb (is_empty endptr)
    then Rejected "invalid argument to -t"
    else if (mt <? 1) || (mt >? 1024 * 1024)
    then Rejected "thread count must be 1-256"
    else Accepted {| dryrun := dryrun o; verbose := verbose o;
                     fillval := fillval o; max_threads := mt |}
  else Rejected USAGE.

(** The getopt loop (lines 133-171) over the successive results of
    getopt. *)
Fixpoint parse_options (gs : list (ascii * string)) (o : options)
  : opt_result :=
  match gs with
  | [] => Accepted o
  | (c, optarg) :: gs' =>
      match handle_option c optarg o with
      | Accepted o' => parse_options gs' o'
      | Rejected m => Rejected m
      end
  end.

(** What the library calls made before the sweep return. *)
Record environment := {
  check_if_mounted_ret : Z;
  mount_flags : Z;
  open_ret : Z;
  malloc_fails : bool;
  read_inode_bitmap_ret : Z;
  read_block_bitmap_ret : Z
}.

Inductive library_call :=
| CheckIfMounted
| Open (flags : Z)
| ReadInodeBitmap
| CreateThreads (n : Z)
| ReadBlockBitmap.

Inductive setup_result :=
| Return (code : Z)
| StartSweep (o : options).

(** main up to line 233: the calls made, the messages on stderr, and either
    the value returned by main or the options the sweep starts with.
    [positional] is [argc - optind]. *)
Definition main_setup (gs : list (ascii * string)) (positional : Z)
    (env : environment) : list library_call * list string * setup_result :=
  let open_flags := EXT2_FLAG_RW in
  match parse_options gs default_options with
  | Rejected m => ([], [m], Return 1)
  | Accepted o =>
      if negb (positional =? 1) then ([], [USAGE], Return 1)
      else if negb (check_if_mounted_ret env =? 0) then
        ([CheckIfMounted],
         ["failed to determine filesystem mount state"%string], Return 1)
      else if negb (Z.land (mount_flags env) EXT2_MF_MOUNTED =? 0) &&
              (Z.land (mount_flags env) EXT2_MF_READONLY =? 0) then
        ([CheckIfMounted], ["filesystem is mounted rw"%string], Return 1)
      else if negb (open_ret env =? 0) then
        ([CheckIfMounted; Open open_flags],
         ["failed to open filesystem"%string], Return 1)
      else if malloc_fails env then
        ([CheckIfMounted; Open open_flags],
         ["out of memory (surely not?)"%string], Return 1)
      else if negb (read_inode_bitmap_ret env =? 0) then
        ([CheckIfMounted; Open open_flags; ReadInodeBitmap],
         ["error while reading inode bitmap"%string], Return 1)
      else if negb (read_block_bitmap_ret env =? 0) then
        ([CheckIfMounted; Open open_flags; ReadInodeBitmap;
          CreateThreads (max_threads o); ReadBlockBitmap],
         ["error while reading block bitmap"%string], Return 1)
      else
        ([CheckIfMounted; Open open_flags; ReadInodeBitmap;
          CreateThreads (max_threads o); ReadBlockBitmap],
         [], StartSweep o)
  end.

(** An environment in which every library call succeeds on an unmounted
    volume. *)
Definition quiet_env : environment :=
  {| check_if_mounted_ret := 0; mount_flags := 0; open_ret := 0;
     malloc_fails := false; read_inode_bitmap_ret := 0;
     read_block_bitmap_ret := 0 |}.

(** The volume is mounted read-only ([EXT2_MF_MOUNTED | EXT2_MF_READONLY]),
    and mounted read-write. *)
Definition ro_mounted_env : environment :=
  {| check_if_mounted_ret := 0; mount_flags := 5; open_ret := 0;
     malloc_fails := false; read_inode_bitmap_ret := 0;
     read_block_bitmap_ret := 0 |}.
Definition rw_mounted_env : environment :=
  {| check_if_mounted_ret := 0; mount_flags := 1; open_ret := 0;
     malloc_fails := false; read_inode_bitmap_ret := 0;
     read_block_bitmap_ret := 0 |}.

(** [ext2fs_check_if_mounted] fails. *)
Definition unknown_mount_env : environment :=
  {| check_if_mounted_ret := 2; mount_flags := 0; open_ret := 0;
     malloc_fails := false; read_inode_bitmap_ret := 0;
     read_block_bitmap_ret := 0 |}.

(** The calls main has made when the sweep starts with [n] threads. *)
Definition setup_calls (n : Z) : list library_call :=
  [CheckIfMounted; Open EXT2_FLAG_RW; ReadInodeBitmap; CreateThreads n;
   ReadBlockBitmap].

(** ** Dry run against normal run *)

Definition with_dryrun (v : Z) (o : options) : options :=
  {| dryrun := v; verbose := verbose o; fillval := fillval o;
     max_threads := max_threads o |}.

(** The device [dev] with every block write succeeding. *)
Definition no_write_failures (dev : device) : device :=
  {| read_fails := read_fails dev; write_fails := fun _ => false;
     close_fails := close_fails dev |}.

(** ** Concrete volumes *)

Module Examples.

Definition dev_ok : device :=
  {| read_fails := fun _ => false; write_fails := fun _ => false;
     close_fails := false |}.
(** The read of block 0 fails. *)
Definition dev_bad0 : device :=
  {| read_fails := fun b => b =? 0; write_fails := fun _ => false;
     close_fails := false |}.
(** The write of block 0 fails. *)
Definition dev_wbad0 : device :=
  {| read_fails := fun _ => false; write_fails := fun b => b =? 0;
     close_fails := false |}.

Definition one_thread : options :=
  {| dryrun := 0; verbose := 1; fillval := 0; max_threads := 1 |}.
Definition two_threads : options :=
  {| dryrun := 0; verbose := 1; fillval := 0; max_threads := 2 |}.

Definition zeros : Z -> list Z := fun _ => [0; 0; 0; 0].
Definition sevens : Z -> list Z := fun _ => [7; 7; 7; 7].

(** A volume whose block range is empty. *)
Definition fs_empty : ext2_filsys :=
  {| fs_blocksize := 4; s_first_data_block := 1; s_blocks_count := 1;
     s_free_blocks_count := 0; block_map := fun _ => true |}.

(** Volumes of [n] blocks, all free; the superblock's free count is [fc]. *)
Definition fs_free (n fc : Z) : ext2_filsys :=
  {| fs_blocksize := 4; s_first_data_block := 0; s_blocks_count := n;
     s_free_blocks_count := fc; block_map := fun _ => false |}.

(** The scenario of the specification: blocks 0..9, of which 2, 4, 6 and 8
    are free; blocks 4 and 6 hold a non-zero byte, every other block is
    zero. *)
Definition fs_scenario : ext2_filsys :=
  {| fs_blocksize := 4; s_first_data_block := 0; s_blocks_count := 10;
     s_free_blocks_count := 4;
     block_map := fun b =>
       negb ((b =? 2) || (b =? 4) || (b =? 6) || (b =? 8)) |}.
Definition disk_scenario : Z -> list Z :=
  fun b => if (b =? 4) || (b =? 6) then [0; 7; 0; 0] else [0; 0; 0; 0].

(** Schedules.  [job k]: main publishes a block, worker 0 claims it, main
    sees the claim, and worker 0 takes [k] more steps. *)
Definition W0 : label := Worker 0.
Definition W1 : label := Worker 1.
Definition job (k : nat) : list label :=
  [Main; W0; Main] ++ replicate k W0.

(** One worker sweeps the scenario volume; a block in use takes 2 steps, a
    clean free block 4, a dirty one 6 (5 in dry-run mode, where the
    write is skipped); main then sets [quit]. *)
Definition scenario_schedule (dirty_steps : nat) : list label :=
  [W0] ++ job 2 ++ job 2 ++ job 4 ++ job 2 ++ job dirty_steps ++ job 2 ++
  job dirty_steps ++ job 2 ++ job 4 ++ job 2 ++ [Main].

(** The same sweep stopped when worker 0 is about to write block 4. *)
Definition schedule_to_write4 : list label :=
  [W0] ++ job 2 ++ job 2 ++ job 4 ++ job 2 ++ job 4.

End Examples.

(** ** Tactics *)

Ltac zbool :=
  repeat match goal with
  | H : negb _ = true |- _ => apply negb_true_iff in H
  | H : negb _ = false |- _ => apply negb_false_iff in H
  | H : (_ <? _) = true |- _ => apply Z.ltb_lt in H
  | H : (_ <? _) = false |- _ => apply Z.ltb_ge in H
  | H : (_ =? _) = true |- _ => apply Z.eqb_eq in H
  | H : (_ =? _) = false |- _ => apply Z.eqb_neq in H
  | H : (_ >=? _) = true |- _ => rewrite Z.geb_leb in H; apply Z.leb_le in H
  | H : (_ >=? _) = false |- _ => rewrite Z.geb_leb in H; apply Z.leb_gt in H
  end.

Ltac case_in H :=
  match type of H with
  | context [match ?x with _ => _ end] => destruct x eqn:?
  end.

Ltac lookup_pc w0 Hl :=
  match type of Hl with
  | <[?w := _]> _ !! w0 = Some _ =>
      destruct (decide (w0 = w)) as [->|?];
      [ rewrite list_lookup_insert_eq in Hl by (eapply lookup_lt_Some; eassumption)
      | rewrite list_lookup_insert_ne in Hl by done ];
      simplify_eq
  end.

(** ** The sweep as a transition system *)

Section Sweep.

Variable fs : ext2_filsys.
Variable dev : device.
Variable opt : options.
(** Block contents when the sweep starts. *)
Variable disk0 : Z -> list Z.

(** State at line 236, after the threads were created (line 222) and the
    counters reset (lines 231-233). *)
Definition init : state :=
  {| quit := 0; do_job := 0; job_block_num := 0; runningThreads := 0;
     freeBlocks := 0; modifiedBlocks := 0; percent := {| num := 0; den := 1 |};
     disk := disk0;
     main_pc := MLoop (s_first_data_block fs);
     workers := replicate (Z.to_nat (max_threads opt)) WStart;
     handoff := []; io_log := []; stderr := []; summary := None |}.

(** Lines 56-62 with the mutex held and [do_job] non-zero: either the
    worker leaves the loop ([break], then lines 116-118) or it takes the
    job. *)
Definition accept (w : nat) (s : state) : state :=
  if negb (quit s =? 0) then
    set_pc w WDone (set_runningThreads (to_int (runningThreads s - 1)) s)
  else
    set_pc w (WTest (to_int (job_block_num s)))
      (add_handoff (w, job_block_num s)
        (set_do_job 0
          (set_runningThreads (to_int (runningThreads s + 1)) s))).

(** Lines 54-62 with the mutex held. *)
Definition loop_head (w : nat) (s : state) : state :=
  if do_job s =? 0 then set_pc w WWait s else accept w s.

Definition worker_step (w : nat) (s : state) : option state :=
  match workers s !! w with
  | None => None
  | Some WStart => Some (loop_head w s)
  | Some WWait => if do_job s =? 0 then None else Some (accept w s)
  | Some (WTest blk) =>
      let s1 := add_io (TestBitmap w blk) s in
      if block_map fs blk then Some (set_pc w WAgain s1)
      else Some (set_pc w (WCount blk) s1)
  | Some (WCount blk) =>
      let fb := to_uint (freeBlocks s + 1) in
      Some (set_pc w (WRead blk)
              (set_freeBlocks fb
                 {| num := 100 * fb; den := s_free_blocks_count fs |} s))
  | Some (WRead blk) =>
      if read_fails dev blk then
        Some (set_pc w WFinish
                (add_stderr "error while reading block"
                   (add_io (ReadBlk w blk false) s)))
      else
        let s1 := add_io (ReadBlk w blk true) s in
        if already_filled (fs_blocksize fs) (fillval opt) (disk s blk)
        then Some (set_pc w WAgain s1)
        else Some (set_pc w (WMod blk) s1)
  | Some (WMod blk) =>
      let s1 := set_modifiedBlocks (to_uint (modifiedBlocks s + 1)) s in
      if negb (dryrun opt =? 0) then Some (set_pc w WAgain s1)
      else Some (set_pc w (WWrite blk) s1)
  | Some (WWrite blk) =>
      if write_fails dev blk then
        Some (set_pc w WFinish
                (add_stderr "error while writing block"
                   (add_io (WriteBlk w blk false) s)))
      else
        Some (set_pc w WAgain
                (set_disk (write_disk (disk s) blk
                             (empty (fs_blocksize fs) (fillval opt)))
                   (add_io (WriteBlk w blk true) s)))
  | Some WAgain =>
      Some (loop_head w
              (set_runningThreads (to_int (runningThreads s - 1)) s))
  | Some WFinish => Some (set_pc w (WFinishStore (runningThreads s)) s)
  | Some (WFinishStore v) =>
      Some (set_pc w WDone (set_runningThreads (to_int (v - 1)) s))
  | Some WDone => None
  end.

Definition main_step (s : state) : option state :=
  match main_pc s with
  | MLoop blk =>
      if blk <? s_blocks_count fs then
        (* lines 237-244 *)
        if runningThreads s >=? max_threads opt then None
        else Some (set_main_pc (MAccepted blk)
                     (set_do_job 1 (set_job_block_num blk s)))
      else
        (* lines 247-250 *)
        Some (set_main_pc (MJoin 0) (set_quit 1 s))
  | MAccepted blk =>
      if negb (do_job s =? 0) then None
      else Some (set_main_pc (MLoop (to_ulong (blk + 1))) s)
  | MJoin i =>
      if i <? max_threads opt then
        match workers s !! Z.to_nat i with
        | Some WDone => Some (set_main_pc (MJoin (to_int (i + 1))) s)
        | _ => None
        end
      else
        (* lines 257-267 *)
        let s1 :=
          if negb (verbose opt =? 0)
          then set_summary
                 (Some (modifiedBlocks s, freeBlocks s, s_blocks_count fs)) s
          else s in
        if close_fails dev
        then Some (set_main_pc (MExit 1)
                     (add_stderr "error while closing filesystem" s1))
        else Some (set_main_pc (MExit 0) s1)
  | MExit _ => None
  end.

Definition step (l : label) (s : state) : option state :=
  match l with
  | Main => main_step s
  | Worker w => worker_step w s
  end.

Fixpoint run (tr : list label) (s : state) : option state :=
  match tr with
  | [] => Some s
  | l :: tr' =>
      match step l s with
      | Some s' => run tr' s'
      | None => None
      end
  end.

Inductive reachable : state -> Prop :=
| reach_init : reachable init
| reach_step l s s' : reachable s -> step l s = Some s' -> reachable s'.

(** ** Well-formed configurations

    [s_first_data_block] and [s_blocks_count] are [__u32] fields, the
    thread count and the fill value passed the checks of lines 148 and
    161, and [fs->blocksize] is an [unsigned int]. *)
Definition wf_config : Prop :=
  0 <= s_first_data_block fs < 2 ^ 32 /\
  0 <= s_blocks_count fs < 2 ^ 32 /\
  1 <= max_threads opt <= 1024 * 1024 /\
  0 <= fillval opt <= 255 /\
  0 <= fs_blocksize fs < 2 ^ 32.

(** ** Invariants of the sweep *)

(** What main's program point says about the job slot and about the jobs
    handed out so far. *)
Definition handshake_inv (s : state) : Prop :=
  let first := s_first_data_block fs in
  let count := s_blocks_count fs in
  match main_pc s with
  | MLoop blk =>
      do_job s = 0 /\ quit s = 0 /\ first <= blk /\
      (blk <= count \/ blk = first) /\
      (handoff s).*2 = seqZ first (blk - first)
  | MAccepted blk =>
      quit s = 0 /\ first <= blk < count /\
      ((do_job s = 1 /\ job_block_num s = blk /\
        (handoff s).*2 = seqZ first (blk - first)) \/
       (do_job s = 0 /\ (handoff s).*2 = seqZ first (blk + 1 - first)))
  | MJoin _ | MExit _ =>
      quit s = 1 /\ do_job s = 0 /\
      (handoff s).*2 = seqZ first (count - first)
  end.

(** Worker [w] had a block read or a block write fail. *)
Definition io_failed (w : nat) (s : state) : Prop :=
  exists blk, ReadBlk w blk false ∈ io_log s \/ WriteBlk w blk false ∈ io_log s.

Definition exit_inv (s : state) : Prop :=
  length (workers s) = Z.to_nat (max_threads opt) /\
  (forall w pc, workers s !! w = Some pc -> on_finish pc = true -> io_failed w s) /\
  match main_pc s with
  | MJoin i =>
      0 <= i <= max_threads opt /\
      forall w, (Z.of_nat w < i) -> workers s !! w = Some WDone
  | MExit _ =>
      forall w, (Z.of_nat w < max_threads opt) -> workers s !! w = Some WDone
  | _ => True
  end.

Definition running_inv (s : state) : Prop :=
  (forall w pc, workers s !! w = Some pc -> on_finish pc = false) /\
  runningThreads s = sumZ active (workers s).

Definition owner_inv (s : state) : Prop :=
  (forall w pc blk, workers s !! w = Some pc -> cur_blk pc = Some blk ->
     exists b, (w, b) ∈ handoff s /\ blk = to_int b) /\
  (forall e, e ∈ io_log s ->
     exists b, (ev_worker e, b) ∈ handoff s /\ ev_blk e = to_int b) /\
  (forall w b, (w, b) ∈ handoff s ->
     TestBitmap w (to_int b) ∈ io_log s \/
     workers s !! w = Some (WTest (to_int b))).

(** A block whose read succeeds and whose initial content is not the fill
    pattern throughout. *)
Definition dirty0 (blk : Z) : bool :=
  negb (read_fails dev blk) &&
  negb (already_filled (fs_blocksize fs) (fillval opt) (disk0 blk)).

Definition pc_ok (pc : wpc) : Prop :=
  match pc with
  | WCount b | WRead b => block_map fs b = false
  | WMod b => block_map fs b = false /\ dirty0 b = true
  | WWrite b => block_map fs b = false /\ dirty0 b = true /\ dryrun opt = 0
  | _ => True
  end.

Definition ev_ok (e : io_event) : Prop :=
  match e with
  | TestBitmap _ _ => True
  | ReadBlk _ b _ => block_map fs b = false
  | WriteBlk _ b _ =>
      block_map fs b = false /\ dirty0 b = true /\ dryrun opt = 0
  end.

Definition written (s : state) (blk : Z) : Prop :=
  exists w, WriteBlk w blk true ∈ io_log s.

Definition disk_inv (s : state) : Prop :=
  (forall blk,
     (~ written s blk /\ disk s blk = disk0 blk) \/
     (written s blk /\
      disk s blk = empty (fs_blocksize fs) (fillval opt))) /\
  (forall w pc blk, workers s !! w = Some pc -> cur_blk pc = Some blk ->
     ~ written s blk) /\
  (forall w pc, workers s !! w = Some pc -> pc_ok pc) /\
  (forall e, e ∈ io_log s -> ev_ok e).

(** Contribution of a handed block to [freeBlocks] and to
    [modifiedBlocks]. *)
Definition free1 (b : Z) : Z := if block_map fs (to_int b) then 0 else 1.
Definition dirty1 (b : Z) : Z :=
  if block_map fs (to_int b) then 0
  else if dirty0 (to_int b) then 1 else 0.

(** What the job in progress will still add to [freeBlocks] and to
    [modifiedBlocks]. *)
Definition pend_free (pc : wpc) : Z :=
  match pc with
  | WTest b => if block_map fs b then 0 else 1
  | WCount _ => 1
  | _ => 0
  end.
Definition pend_mod (pc : wpc) : Z :=
  match pc with
  | WTest b => if block_map fs b then 0 else if dirty0 b then 1 else 0
  | WCount b | WRead b => if dirty0 b then 1 else 0
  | WMod _ => 1
  | _ => 0
  end.
(** Jobs counted in [freeBlocks] and not yet in [modifiedBlocks]. *)
Definition pend_rw (pc : wpc) : Z :=
  match pc with
  | WRead _ | WMod _ => 1
  | _ => 0
  end.

Definition count_inv (s : state) : Prop :=
  freeBlocks s + sumZ pend_free (workers s) = sumZ free1 (handoff s).*2 /\
  modifiedBlocks s + sumZ pend_mod (workers s) = sumZ dirty1 (handoff s).*2 /\
  0 <= modifiedBlocks s /\
  modifiedBlocks s + sumZ pend_rw (workers s) <= freeBlocks s /\
  percent s =
    (if freeBlocks s =? 0 then {| num := 0; den := 1 |}
     else {| num := 100 * freeBlocks s; den := s_free_blocks_count fs |}).

(** Number of blocks of the range that the bitmap marks free, and number of
    those whose read succeeds and whose initial content differs from the
    fill pattern. *)
Definition free_in_range : Z :=
  sumZ free1 (seqZ (s_first_data_block fs)
                   (s_blocks_count fs - s_first_data_block fs)).
Definition dirty_in_range : Z :=
  sumZ dirty1 (seqZ (s_first_data_block fs)
                    (s_blocks_count fs - s_first_data_block fs)).

(** Every byte of the first [fs_blocksize] bytes equals the fill value. *)
Definition all_fill (buf : list Z) : Prop :=
  forall j, (j < Z.to_nat (fs_blocksize fs))%nat -> nth j buf 0 = fillval opt.

(** The dispatch loop has ended and no worker holds a job. *)
Definition sweep_done (s : state) : Prop :=
  quit s <> 0 /\
  forall w pc, workers s !! w = Some pc -> cur_blk pc = None.

(** What became of a claimed job on block [blk] of worker [w]: the block is
    in use, or it holds fill bytes only, or the job is still in progress,
    or the run is a dry run, or a read or write of the job failed. *)
Definition job_settled (s : state) (w : nat) (blk : Z) : Prop :=
  block_map fs blk = true \/
  all_fill (disk s blk) \/
  (exists pc, workers s !! w = Some pc /\ cur_blk pc = Some blk) \/
  dryrun opt <> 0 \/
  ReadBlk w blk false ∈ io_log s \/
  WriteBlk w blk false ∈ io_log s.

Definition settled_inv (s : state) : Prop :=
  forall w b, (w, b) ∈ handoff s -> job_settled s w (to_int b).

(** The kind of call of an event, and the calls a job has behind it at a
    program point: none at the bitmap test, the test before the read, test
    and read before the write. *)
Definition ev_kind (e : io_event) : Z :=
  match e with
  | TestBitmap _ _ => 0
  | ReadBlk _ _ _ => 1
  | WriteBlk _ _ _ => 2
  end.
Definition ev_key (e : io_event) : Z * Z := (ev_kind e, ev_blk e).
Definition stage (pc : wpc) : Z :=
  match pc with
  | WTest _ => 0
  | WCount _ | WRead _ => 1
  | WMod _ | WWrite _ => 2
  | _ => 3
  end.

Definition once_inv (s : state) : Prop :=
  NoDup (ev_key <$> io_log s) /\
  (forall w pc blk e, workers s !! w = Some pc -> cur_blk pc = Some blk ->
     e ∈ io_log s -> ev_blk e = blk -> ev_kind e < stage pc).

(** A job past its bitmap test has the test in the log, a job past its
    read has the successful read; in the log a read stands after the test
    of the same block by the same worker, and a write after the successful
    read. *)
Definition order_inv (s : state) : Prop :=
  (forall w pc blk, workers s !! w = Some pc -> cur_blk pc = Some blk ->
     (1 <= stage pc -> TestBitmap w blk ∈ io_log s) /\
     (2 <= stage pc -> ReadBlk w blk true ∈ io_log s)) /\
  (forall j e, io_log s !! j = Some e ->
     (ev_kind e = 1 ->
      exists i, (i < j)%nat /\
        io_log s !! i = Some (TestBitmap (ev_worker e) (ev_blk e))) /\
     (ev_kind e = 2 ->
      exists i, (i < j)%nat /\
        io_log s !! i = Some (ReadBlk (ev_worker e) (ev_blk e) true))).

(** What main leaves behind when it returns (lines 257-267). *)
Definition report_inv (s : state) : Prop :=
  match main_pc s with
  | MExit c =>
      c = (if close_fails dev then 1 else 0) /\
      summary s =
        (if verbose opt =? 0 then None
         else Some (modifiedBlocks s, freeBlocks s, s_blocks_count fs))
  | _ => summary s = None
  end.

(** The messages on stderr are those of the failed calls, followed by
    main's; a worker that is still working has had no call fail; a failed
    call is the last call of its worker. *)
Definition msg_inv (s : state) : Prop :=
  stderr s = omap ev_msg (io_log s) ++ close_msg (main_pc s) /\
  (forall w pc e, workers s !! w = Some pc -> on_finish pc = false ->
     e ∈ io_log s -> ev_worker e = w -> ev_msg e = None) /\
  (forall i j e e', io_log s !! i = Some e -> io_log s !! j = Some e' ->
     ev_msg e <> None -> ev_worker e' = ev_worker e -> (j <= i)%nat).

(** A variant: every step of main or of a worker makes it smaller. *)
Definition steps_left (s : state) : Z :=
  8 * main_weight (s_blocks_count fs) (max_threads opt) (main_pc s) +
  (if do_job s =? 0 then 0 else 7) + sumZ pc_weight (workers s).

(** Main is at its first [pthread_join] (line 254), every worker waits at
    lines 54-55 and the job slot is empty. *)
Definition quiescent (s : state) : Prop :=
  main_pc s = MJoin 0 /\ quit s = 1 /\ do_job s = 0 /\ runningThreads s = 0 /\
  forall w pc, workers s !! w = Some pc -> pc = WWait.

Hypothesis WF : wf_config.

Ltac step_inv H :=
  unfold step, main_step, worker_step, loop_head, accept in H;
  repeat case_in H; simplify_eq; zbool; simpl in *.

(** ** Arithmetic and list facts *)

Lemma to_int_small x : - 2 ^ 31 <= x < 2 ^ 31 -> to_int x = x.
Proof. intros Hx. unfold to_int. rewrite Z.mod_small by lia. lia. Qed.

Lemma to_int_inj a b :
  0 <= a < 2 ^ 32 -> 0 <= b < 2 ^ 32 -> to_int a = to_int b -> a = b.
Proof.
  intros Ha Hb. unfold to_int. intros Heq.
  assert ((a + 2 ^ 31) mod 2 ^ 32 = (b + 2 ^ 31) mod 2 ^ 32) as Hm by lia.
  clear Heq.
  destruct (decide (a < 2 ^ 31)); destruct (decide (b < 2 ^ 31)).
  - rewrite !Z.mod_small in Hm by lia. lia.
  - rewrite (Z.mod_small (a + 2 ^ 31)) in Hm by lia.
    replace (b + 2 ^ 31) with ((b - 2 ^ 31) + 1 * 2 ^ 32) in Hm by lia.
    rewrite Z.mod_add, Z.mod_small in Hm by lia. lia.
  - rewrite (Z.mod_small (b + 2 ^ 31)) in Hm by lia.
    replace (a + 2 ^ 31) with ((a - 2 ^ 31) + 1 * 2 ^ 32) in Hm by lia.
    rewrite Z.mod_add, Z.mod_small in Hm by lia. lia.
  - replace (a + 2 ^ 31) with ((a - 2 ^ 31) + 1 * 2 ^ 32) in Hm by lia.
    replace (b + 2 ^ 31) with ((b - 2 ^ 31) + 1 * 2 ^ 32) in Hm by lia.
    rewrite !Z.mod_add, !Z.mod_small in Hm by lia. lia.
Qed.

Lemma to_uint_small x : 0 <= x < 2 ^ 32 -> to_uint x = x.
Proof. intros Hx. unfold to_uint. by rewrite Z.mod_small. Qed.

Lemma to_int_high x : 2 ^ 31 <= x < 2 ^ 32 -> to_int x = x - 2 ^ 32.
Proof.
  intros Hx. unfold to_int.
  replace (x + 2 ^ 31) with ((x - 2 ^ 31) + 1 * 2 ^ 32) by lia.
  rewrite Z.mod_add, Z.mod_small by lia. lia.
Qed.

Lemma sumZ_insert {A} (f : A -> Z) l w x x' :
  l !! w = Some x -> sumZ f (<[w := x']> l) = sumZ f l - f x + f x'.
Proof.
  revert w. induction l as [|y l IH]; intros [|w] Hl; simpl in *; simplify_eq.
  - lia.
  - rewrite (IH w Hl). lia.
Qed.

Lemma sumZ_replicate {A} (f : A -> Z) n x :
  sumZ f (replicate n x) = Z.of_nat n * f x.
Proof. induction n as [|n IH]; simpl; [done|]. rewrite IH. lia. Qed.

Lemma sumZ_app {A} (f : A -> Z) l k : sumZ f (l ++ k) = sumZ f l + sumZ f k.
Proof. induction l as [|x l IH]; simpl; [done|]. rewrite IH. lia. Qed.

Lemma sumZ_bounds {A} (f : A -> Z) l :
  (forall x, 0 <= f x <= 1) -> 0 <= sumZ f l <= Z.of_nat (length l).
Proof.
  intros Hf. induction l as [|x l IH]; simpl; [lia|].
  specialize (Hf x). lia.
Qed.

Lemma sumZ_nonneg {A} (f : A -> Z) l : (forall x, 0 <= f x) -> 0 <= sumZ f l.
Proof.
  intros Hf. induction l as [|x l IH]; simpl; [lia|]. specialize (Hf x). lia.
Qed.

Lemma sumZ_lookup_le {A} (f : A -> Z) l w x :
  (forall x, 0 <= f x) -> l !! w = Some x -> f x <= sumZ f l.
Proof.
  intros Hf. revert w. induction l as [|y l IH]; intros [|w] Hl;
    simpl in *; simplify_eq.
  - pose proof (sumZ_nonneg f l Hf). lia.
  - specialize (IH _ Hl). specialize (Hf y). lia.
Qed.

Lemma sumZ_zero {A} (f : A -> Z) l :
  (forall x, x ∈ l -> f x = 0) -> sumZ f l = 0.
Proof.
  induction l as [|x l IH]; intros Hf; simpl; [done|].
  rewrite (Hf x), IH; [done| |by left]. intros y Hy. apply Hf. by right.
Qed.

Lemma seqZ_snoc (a n : Z) : 0 <= n -> seqZ a (n + 1) = seqZ a n ++ [a + n].
Proof. intros Hn. rewrite seqZ_app by lia. f_equal. Qed.

Lemma scan_le buf fill n : forall i, (i <= scan buf fill i n <= i + n)%nat.
Proof.
  induction n as [|n IH]; intros i; simpl; [lia|].
  destruct (nth i buf 0 =? fill); simpl; [|lia].
  specialize (IH (S i)). lia.
Qed.

Lemma scan_all buf fill n : forall i,
  scan buf fill i n = (i + n)%nat <->
  (forall j, (i <= j < i + n)%nat -> nth j buf 0 = fill).
Proof.
  induction n as [|n IH]; intros i; simpl.
  - split; [intros _ j ?; lia|intros _; lia].
  - destruct (nth i buf 0 =? fill) eqn:E; simpl.
    + apply Z.eqb_eq in E. rewrite Nat.add_succ_r, <- Nat.add_succ_l, IH.
      split; intros H j Hj.
      * destruct (decide (j = i)) as [->|]; [done|]. apply H. lia.
      * apply H. lia.
    + apply Z.eqb_neq in E. split; [lia|].
      intros H. destruct E. apply H. lia.
Qed.

Lemma scan_stop buf fill n : forall i,
  (scan buf fill i n < i + n)%nat -> nth (scan buf fill i n) buf 0 <> fill.
Proof.
  induction n as [|n IH]; intros i; simpl; [lia|].
  destruct (nth i buf 0 =? fill) eqn:E; simpl.
  - intros H. apply IH. lia.
  - intros _. by apply Z.eqb_neq.
Qed.

Lemma already_filled_true bs fill buf :
  0 <= bs ->
  already_filled bs fill buf = true <->
  (forall j, (j < Z.to_nat bs)%nat -> nth j buf 0 = fill).
Proof.
  intros Hbs. unfold already_filled. rewrite Z.eqb_eq.
  pose proof (scan_all buf fill (Z.to_nat bs) 0) as Hs. simpl in Hs.
  split.
  - intros H j Hj. apply Hs; lia.
  - intros H. assert (scan buf fill 0 (Z.to_nat bs) = Z.to_nat bs) as ->; [|lia].
    apply Hs. intros j Hj. apply H. lia.
Qed.

Lemma already_filled_false bs fill buf :
  0 <= bs ->
  already_filled bs fill buf = false <->
  (exists j, (j < Z.to_nat bs)%nat /\ nth j buf 0 <> fill).
Proof.
  intros Hbs. split.
  - intros Hf. unfold already_filled in Hf. apply Z.eqb_neq in Hf.
    exists (scan buf fill 0 (Z.to_nat bs)).
    pose proof (scan_le buf fill (Z.to_nat bs) 0) as Hle.
    split; [lia|]. apply scan_stop. lia.
  - intros (j & Hj & Hne). destruct (already_filled bs fill buf) eqn:E; [|done].
    rewrite already_filled_true in E by done. destruct Hne. by apply E.
Qed.

Lemma nth_empty bs fill j :
  (j < Z.to_nat bs)%nat -> nth j (empty bs fill) 0 = to_uchar fill.
Proof.
  intros Hj. unfold empty. apply nth_lookup_Some with (d := 0).
  by apply lookup_replicate_2.
Qed.

(** ** The single-slot handoff *)

Lemma run_reachable tr : forall s s',
  reachable s -> run tr s = Some s' -> reachable s'.
Proof.
  induction tr as [|l tr IH]; intros s s' Hs Hrun; simpl in Hrun.
  - by inversion Hrun; subst.
  - destruct (step l s) as [s1|] eqn:E; [|done].
    eapply IH; [|exact Hrun]. by eapply reach_step.
Qed.

Lemma handshake_init : handshake_inv init.
Proof.
  unfold handshake_inv; simpl. repeat split; try lia.
  by rewrite Z.sub_diag.
Qed.

Lemma handshake_step l s s' :
  handshake_inv s -> step l s = Some s' -> handshake_inv s'.
Proof.
  destruct WF as (Hf & Hc & _).
  intros Hinv Hstep.
  destruct l as [|w]; step_inv Hstep; unfold handshake_inv in *; simpl in *;
    try assumption.
  1-8: rewrite Heqm in Hinv.
  - destruct Hinv as (? & ? & ? & ? & ?). repeat split; try lia. by left.
  - destruct Hinv as (? & ? & ? & ? & Hh). repeat split; try done.
    rewrite Hh. destruct (decide (s_blocks_count fs - s_first_data_block fs <= 0)).
    + rewrite !seqZ_nil; [done|lia..].
    + f_equal. lia.
  - destruct Hinv as (? & ? & [(?&?&?)|(?&Hh)]); [lia|].
    unfold to_ulong. rewrite Z.mod_small by lia.
    split; [done|]. split; [done|]. split; [lia|]. split; [lia|].
    rewrite Hh. f_equal; lia.
  - done.
  - done.
  - done.
  - done.
  - done.
  - destruct (main_pc s); try lia.
    destruct Hinv as (? & ? & [(?&Hj&Hh)|(?&?)]); [|lia].
    repeat split; try lia. right. split; [done|].
    rewrite fmap_app, Hh, Hj. simpl.
    replace (blk + 1 - s_first_data_block fs)
      with (blk - s_first_data_block fs + 1) by lia.
    rewrite seqZ_snoc by lia. do 2 f_equal. lia.
  - destruct (main_pc s); try lia.
    destruct Hinv as (? & ? & [(?&Hj&Hh)|(?&?)]); [|lia].
    repeat split; try lia. right. split; [done|].
    rewrite fmap_app, Hh, Hj. simpl.
    replace (blk + 1 - s_first_data_block fs)
      with (blk - s_first_data_block fs + 1) by lia.
    rewrite seqZ_snoc by lia. do 2 f_equal. lia.
  - destruct (main_pc s); try lia.
    destruct Hinv as (? & ? & [(?&Hj&Hh)|(?&?)]); [|lia].
    repeat split; try lia. right. split; [done|].
    rewrite fmap_app, Hh, Hj. simpl.
    replace (blk + 1 - s_first_data_block fs)
      with (blk - s_first_data_block fs + 1) by lia.
    rewrite seqZ_snoc by lia. do 2 f_equal. lia.
Qed.

Lemma handshake_reachable s : reachable s -> handshake_inv s.
Proof.
  induction 1 as [|l s s' _ IH Hstep];
    eauto using handshake_init, handshake_step.
Qed.

(** ** Workers leave only through the error path *)

Lemma io_failed_mono w s s' :
  (forall e, e ∈ io_log s -> e ∈ io_log s') -> io_failed w s -> io_failed w s'.
Proof. intros Hsub (blk & [H|H]); exists blk; eauto. Qed.

Lemma exit_init : exit_inv init.
Proof.
  unfold exit_inv; simpl. split; [by rewrite length_replicate|].
  split; [|done]. intros w pc Hl. apply lookup_replicate in Hl as [-> _]. done.
Qed.

Lemma exit_step l s s' :
  handshake_inv s -> exit_inv s -> step l s = Some s' -> exit_inv s'.
Proof.
  destruct WF as (_ & _ & Hmax & _).
  intros Hh (Hlen & Hfin & Hjoin) Hstep. unfold handshake_inv in Hh.
  destruct l as [|w]; step_inv Hstep; unfold exit_inv, io_failed in *; simpl;
    rewrite ?length_insert; (split; [done|]); split.
  all: try (intros w0 pc0 Hl Hpc0; try lookup_pc w0 Hl; try done;
            try (by destruct (main_pc s); lia);
            try (by destruct (Hfin _ _ Hl Hpc0) as (b0 & Hb0); exists b0;
                   rewrite ?elem_of_app; tauto);
            try (by eexists; rewrite !elem_of_app, !list_elem_of_singleton; eauto);
            try (by eapply Hfin; [eassumption|done])).
  all: try (destruct (main_pc s); try done;
            [destruct Hjoin as [Hi Hj]; split; [done|] | ];
            intros w0 Hw0; (rewrite list_lookup_insert_ne; [by auto|]);
            intros ->; match goal with H : forall _, _ -> _ = Some WDone |- _ =>
               specialize (H _ Hw0) end; congruence).
  all: try rewrite Heqm in *; try done.
  - split; [lia|]. intros; lia.
  - destruct Hjoin as [Hi Hj].
    assert (to_int (i + 1) = i + 1) as ->.
    { unfold to_int. rewrite Z.mod_small by lia. lia. }
    split; [lia|]. intros w0 Hw0.
    destruct (decide (Z.of_nat w0 = i)) as [<-|]; [|apply Hj; lia].
    rewrite Nat2Z.id in *. done.
  - destruct Hjoin as [Hi Hj]. intros; apply Hj; lia.
  - destruct Hjoin as [Hi Hj]. intros; apply Hj; lia.
  - destruct Hjoin as [Hi Hj]. intros; apply Hj; lia.
  - destruct Hjoin as [Hi Hj]. intros; apply Hj; lia.
Qed.

Lemma exit_reachable s : reachable s -> exit_inv s.
Proof.
  induction 1 as [|l s s' Hr IH Hstep];
    eauto using exit_init, exit_step, handshake_reachable.
Qed.

(** C1 (the code departs from it).  Once main has set [quit] (line 248)
    the job slot is empty, so no worker blocked at lines 54-55 can leave the
    inner loop: its step is disabled, the broadcast of line 249
    notwithstanding, and the test of [quit] at line 56 is never reached with
    [quit] set.  A worker thread therefore ends only after a failed block
    read or write, and main gets past the joins of lines 251-255 only when
    every worker died that way. *)
Theorem quit_is_never_observed s :
  reachable s ->
  (quit s <> 0 -> do_job s = 0) /\
  (forall w, quit s <> 0 -> workers s !! w = Some WWait ->
             step (Worker w) s = None) /\
  (forall w, workers s !! w = Some WDone -> io_failed w s) /\
  (forall c, main_pc s = MExit c ->
             forall w, Z.of_nat w < max_threads opt -> io_failed w s).
Proof.
  intros Hr.
  pose proof (handshake_reachable s Hr) as Hh.
  pose proof (exit_reachable s Hr) as (Hlen & Hfin & Hjoin).
  assert (quit s <> 0 -> do_job s = 0) as Hq.
  { unfold handshake_inv in Hh. destruct (main_pc s); intuition lia. }
  split; [done|]. split; [|split].
  - intros w Hquit Hw. simpl. unfold worker_step. rewrite Hw.
    rewrite (Hq Hquit). done.
  - intros w Hw. by eapply Hfin.
  - intros c Hc w Hw. rewrite Hc in Hjoin. eapply Hfin; [by apply Hjoin|done].
Qed.

(** ** The running-thread count when no block I/O fails *)

Lemma active_bounds pc : 0 <= active pc <= 1.
Proof. destruct pc; simpl; lia. Qed.

Lemma running_reachable s :
  (forall b, read_fails dev b = false) ->
  (forall b, write_fails dev b = false) ->
  reachable s -> running_inv s /\ 0 <= runningThreads s <= max_threads opt.
Proof.
  intros Hrd Hwr Hr.
  destruct WF as (_ & _ & Hmax & _).
  assert (forall s, exit_inv s -> running_inv s ->
            0 <= runningThreads s <= max_threads opt) as Hbound.
  { intros s0 (Hlen & _) (_ & ->).
    pose proof (sumZ_bounds active (workers s0) active_bounds). lia. }
  assert (running_inv s); [|eauto using exit_reachable].
  induction Hr as [|l s s' Hr IH Hstep].
  - split; simpl.
    + intros w pc Hl. by apply lookup_replicate in Hl as [-> _].
    + rewrite sumZ_replicate. simpl. lia.
  - pose proof (handshake_reachable _ Hr) as Hh.
    pose proof (Hbound _ (exit_reachable _ Hr) IH) as Hb.
    destruct IH as [Hnf Hrun]. unfold handshake_inv in Hh.
    assert (forall x, -1 <= x <= max_threads opt -> to_int x = x) as Hint.
    { intros x Hx. unfold to_int. rewrite Z.mod_small by lia. lia. }
    destruct l as [|w]; step_inv Hstep; unfold running_inv; simpl;
      try done.
    all: try rewrite Hrd in *; try rewrite Hwr in *; try done.
    all: try (by destruct (main_pc s); lia).
    all: try (by apply Hnf in Heqo).
    all: split;
      [ intros w0 pc0 Hl; lookup_pc w0 Hl; by eauto
      | erewrite sumZ_insert by eassumption; simpl; try lia ].
    all: pose proof (sumZ_lookup_le active _ _ _
                       (fun pc => proj1 (active_bounds pc)) Heqo) as Hle;
      simpl in Hle; rewrite ?Hint by lia; try lia.
    all: pose proof (sumZ_bounds active
                       (<[w := WTest 0]> (workers s)) active_bounds) as Hub;
      rewrite length_insert in Hub;
      erewrite sumZ_insert in Hub by eassumption; simpl in Hub;
      destruct (exit_reachable _ Hr) as (Hlen & _);
      rewrite ?(Hint (runningThreads s - 1)) by lia;
      rewrite ?Hint by lia; lia.
Qed.

(** X7.  When no block read or write fails, no worker thread ever returns
    and main never gets past its first [pthread_join]. *)
Lemma no_return_without_io_failure s :
  (forall b, read_fails dev b = false) ->
  (forall b, write_fails dev b = false) ->
  reachable s ->
  (forall w, workers s !! w <> Some WDone) /\
  (forall c, main_pc s <> MExit c) /\
  (forall i, main_pc s = MJoin i -> i = 0 /\ main_step s = None).
Proof.
  destruct WF as (_ & _ & Hmax & _).
  intros Hrd Hwr Hr.
  destruct (running_reachable s Hrd Hwr Hr) as [[Hnf _] _].
  destruct (exit_reachable s Hr) as (Hlen & _ & Hjoin).
  assert (forall w, workers s !! w <> Some WDone) as Hnd.
  { intros w Hw. by apply Hnf in Hw. }
  split; [done|]. split.
  - intros c Hc. rewrite Hc in Hjoin. apply (Hnd 0%nat), Hjoin. simpl. lia.
  - intros i Hi. rewrite Hi in Hjoin. destruct Hjoin as [Hi0 Hj].
    assert (i = 0) as ->.
    { destruct (decide (i = 0)) as [|Hne]; [done|].
      destruct (Hnd 0%nat). apply Hj. simpl. lia. }
    split; [done|]. unfold main_step. rewrite Hi.
    assert ((0 <? max_threads opt) = true) as -> by (apply Z.ltb_lt; lia).
    change (Z.to_nat 0) with 0%nat.
    destruct (workers s !! 0%nat) as [pc|] eqn:E; [|done].
    destruct pc; try done. by destruct (Hnd 0%nat).
Qed.

(** ** Ownership of jobs *)

Lemma handoff_prefix s :
  handshake_inv s ->
  exists k, 0 <= k /\
    s_first_data_block fs + k <=
      Z.max (s_first_data_block fs) (s_blocks_count fs) /\
    (handoff s).*2 = seqZ (s_first_data_block fs) k /\
    (match main_pc s with
     | MJoin _ | MExit _ =>
         k = Z.max 0 (s_blocks_count fs - s_first_data_block fs)
     | _ => True
     end).
Proof.
  unfold handshake_inv. intros Hh.
  destruct (main_pc s) as [blk|blk|i|c].
  - destruct Hh as (_ & _ & ? & [?|?] & Hh);
      exists (blk - s_first_data_block fs); repeat split; try done; lia.
  - destruct Hh as (_ & ? & [(_ & _ & Hh)|(_ & Hh)]).
    + exists (blk - s_first_data_block fs). repeat split; try done; lia.
    + exists (blk + 1 - s_first_data_block fs). repeat split; try done; lia.
  - destruct Hh as (_ & _ & Hh).
    exists (Z.max 0 (s_blocks_count fs - s_first_data_block fs)).
    repeat split; try lia. rewrite Hh.
    destruct (decide (s_blocks_count fs - s_first_data_block fs <= 0)).
    + rewrite !seqZ_nil; [done|lia..].
    + f_equal. lia.
  - destruct Hh as (_ & _ & Hh).
    exists (Z.max 0 (s_blocks_count fs - s_first_data_block fs)).
    repeat split; try lia. rewrite Hh.
    destruct (decide (s_blocks_count fs - s_first_data_block fs <= 0)).
    + rewrite !seqZ_nil; [done|lia..].
    + f_equal. lia.
Qed.

Lemma handoff_facts s :
  handshake_inv s ->
  NoDup (handoff s).*2 /\
  (forall b, b ∈ (handoff s).*2 ->
             s_first_data_block fs <= b < s_blocks_count fs).
Proof.
  intros (k & Hk0 & Hk & -> & _)%handoff_prefix.
  split; [apply NoDup_seqZ|]. intros b Hb%elem_of_seqZ. lia.
Qed.

Lemma pending_job_fresh s :
  handshake_inv s -> do_job s <> 0 ->
  (job_block_num s ∉ (handoff s).*2) /\
  s_first_data_block fs <= job_block_num s < s_blocks_count fs.
Proof.
  unfold handshake_inv. intros Hh Hj.
  destruct (main_pc s) as [blk|blk|i|c]; try lia.
  destruct Hh as (_ & ? & [(_ & -> & ->)|(? & _)]); [|lia].
  split; [|lia]. rewrite elem_of_seqZ. lia.
Qed.

Lemma handoff_owner s w w' b :
  handshake_inv s -> (w, b) ∈ handoff s -> (w', b) ∈ handoff s -> w = w'.
Proof.
  intros Hh H1 H2. destruct (handoff_facts s Hh) as [Hnd _].
  apply list_elem_of_lookup in H1 as [i Hi], H2 as [j Hj].
  assert (i = j) as ->.
  { eapply NoDup_lookup; [exact Hnd|..]; rewrite list_lookup_fmap.
    - by rewrite Hi.
    - by rewrite Hj. }
  congruence.
Qed.

Lemma owner_init : owner_inv init.
Proof.
  split; [|split]; simpl.
  - intros w pc blk Hl. by apply lookup_replicate in Hl as [-> _].
  - by intros e ?%elem_of_nil.
  - by intros w b ?%elem_of_nil.
Qed.

Lemma owner_step l s s' :
  owner_inv s -> step l s = Some s' -> owner_inv s'.
Proof.
  intros (Hcur & Hev & Hq) Hstep.
  destruct l as [|w]; step_inv Hstep; unfold owner_inv; simpl;
    try done.
  all: split; [|split].
  all: try (intros w0 pc0 blk0 Hl Hc; lookup_pc w0 Hl; simpl in *; simplify_eq).
  all: try (intros e [He|He%list_elem_of_singleton]%elem_of_app; subst; simpl).
  all: try (intros w0 b0 [Hb|Hb%list_elem_of_singleton]%elem_of_app; simplify_eq).
  all: try (intros w0 b0 Hb).
  all: try (intros e He; destruct (Hev e He) as (b1 & ? & ?); exists b1).
  all: rewrite ?elem_of_app, ?list_elem_of_singleton.
  all: try (by eauto).
  all: try (by eexists; rewrite elem_of_app, list_elem_of_singleton; eauto).
  all: try (by destruct (Hq _ _ Hb) as [?|Hl']; [by auto|];
            destruct (decide (w0 = w)) as [->|?];
            [ simplify_eq; by auto
            | right; by rewrite list_lookup_insert_ne ]).
  all: try (by destruct (Hcur _ _ _ Hl Hc) as (b1 & ? & ?); exists b1;
            rewrite ?elem_of_app; auto).
  all: try (by right; apply list_lookup_insert_eq; eapply lookup_lt_Some).
Qed.

Lemma owner_reachable s : reachable s -> owner_inv s.
Proof.
  induction 1 as [|l s s' Hr IH Hstep]; eauto using owner_init, owner_step.
Qed.

Lemma inflight_distinct s w w0 pc pc0 blk :
  handshake_inv s -> owner_inv s ->
  workers s !! w = Some pc -> workers s !! w0 = Some pc0 ->
  cur_blk pc = Some blk -> cur_blk pc0 = Some blk -> w = w0.
Proof.
  destruct WF as (Hf & Hc & _).
  intros Hh (Hcur & _) Hw Hw0 Hb Hb0.
  destruct (Hcur _ _ _ Hw Hb) as (b & Hin & ->).
  destruct (Hcur _ _ _ Hw0 Hb0) as (b0 & Hin0 & Heq).
  destruct (handoff_facts s Hh) as [_ Hrange].
  assert (b = b0) as ->.
  { apply to_int_inj; [| |done].
    - pose proof (Hrange b) as Hb1. rewrite list_elem_of_fmap in Hb1.
      assert (s_first_data_block fs <= b < s_blocks_count fs); [|lia].
      apply Hb1. by exists (w, b).
    - pose proof (Hrange b0) as Hb1. rewrite list_elem_of_fmap in Hb1.
      assert (s_first_data_block fs <= b0 < s_blocks_count fs); [|lia].
      apply Hb1. by exists (w0, b0). }
  by eapply handoff_owner.
Qed.

Lemma pending_untouched s e :
  handshake_inv s -> owner_inv s -> do_job s <> 0 ->
  e ∈ io_log s -> ev_blk e <> to_int (job_block_num s).
Proof.
  destruct WF as (Hf & Hc & _).
  intros Hh (_ & Hev & _) Hj He Heq.
  destruct (Hev e He) as (b & Hin & Hb).
  destruct (pending_job_fresh s Hh Hj) as [Hfresh Hjr].
  destruct (handoff_facts s Hh) as [_ Hrange].
  assert (b ∈ (handoff s).*2) as Hbin.
  { rewrite list_elem_of_fmap. by exists (ev_worker e, b). }
  assert (b = job_block_num s) as ->; [|done].
  apply to_int_inj; [| |congruence].
  - specialize (Hrange _ Hbin). lia.
  - lia.
Qed.

(** ** Block contents *)

Lemma disk_init : disk_inv init.
Proof.
  split; [|split; [|split]]; simpl.
  - left. split; [|done]. by intros [w ?%elem_of_nil].
  - intros w pc blk Hl. by apply lookup_replicate in Hl as [-> _].
  - intros w pc Hl. by apply lookup_replicate in Hl as [-> _].
  - by intros e ?%elem_of_nil.
Qed.

Lemma inflight_unwritten s w pc blk :
  disk_inv s -> workers s !! w = Some pc -> cur_blk pc = Some blk ->
  disk s blk = disk0 blk.
Proof.
  intros (Hd & Hnw & _) Hw Hc.
  destruct (Hd blk) as [[_ ?]|[Hwr _]]; [done|].
  by destruct (Hnw _ _ _ Hw Hc).
Qed.

Lemma disk_step l s s' :
  handshake_inv s -> owner_inv s -> disk_inv s ->
  step l s = Some s' -> disk_inv s'.
Proof.
  intros Hh Ho Hdi Hstep.
  pose proof (fun w pc blk => inflight_unwritten s w pc blk Hdi) as Hunw.
  pose proof (fun w w0 pc pc0 blk =>
                inflight_distinct s w w0 pc pc0 blk Hh Ho) as Hdist.
  pose proof (fun e => pending_untouched s e Hh Ho) as Hpend.
  destruct Hdi as (Hd & Hnw & Hpc & Hev).
  destruct l as [|w]; step_inv Hstep; unfold disk_inv, written in *; simpl;
    try done.
  all: pose proof (Hpc _ _ Heqo) as Hok; simpl in Hok.
  all: split; [|split; [|split]].
  (* events *)
  all: try (by intros e He; rewrite ?elem_of_app, ?list_elem_of_singleton in He;
            destruct He as [He| ->]; [by apply Hev|]; simpl; try done;
            intuition).
  (* program points *)
  all: try (by intros w0 pc0 Hl; lookup_pc w0 Hl; simpl; eauto;
            repeat split; try tauto;
            unfold dirty0; rewrite <- (Hunw _ _ _ Heqo eq_refl);
            rewrite Heqb, Heqb0).
  (* block contents *)
  all: try (by intros blk0; destruct (Hd blk0) as [[Hn ?]|[[w1 ?] ?]];
            [ left; split; [|done]; intros [w1 Hw1];
              rewrite ?elem_of_app, ?list_elem_of_singleton in Hw1;
              destruct Hn; exists w1; first [done | by destruct Hw1]
            | right; split; [exists w1; rewrite ?elem_of_app; by auto | done]]).
  (* unwritten blocks in flight *)
  all: try (by intros w0 pc0 blk0 Hl Hc [w1 Hw1];
            rewrite ?elem_of_app, ?list_elem_of_singleton in Hw1;
            lookup_pc w0 Hl; simpl in *; simplify_eq;
            try (by eapply Hnw; eauto);
            try (by destruct Hw1 as [Hw1|?]; [|done]; eapply Hnw; eauto);
            try (by eapply (Hpend (WriteBlk w1 _ true)); eauto)).
  all: try exact Hev.
  - intros blk0. unfold write_disk.
    destruct (blk0 =? blk) eqn:Hb; zbool.
    + subst. right. split; [|done]. exists w.
      rewrite elem_of_app, list_elem_of_singleton. by right.
    + destruct (Hd blk0) as [[Hn ?]|[[w1 ?] ?]].
      * left. split; [|done]. intros [w1 Hw1].
        rewrite elem_of_app, list_elem_of_singleton in Hw1.
        destruct Hw1 as [?|?]; [|by simplify_eq]. destruct Hn. by exists w1.
      * right. split; [|done]. exists w1. rewrite elem_of_app. by left.
  - intros w0 pc0 blk0 Hl Hc [w1 Hw1].
    rewrite elem_of_app, list_elem_of_singleton in Hw1.
    lookup_pc w0 Hl.
    destruct Hw1 as [Hw1|Hw1]; [by eapply Hnw; eauto|]. simplify_eq.
    by pose proof (Hdist _ _ _ _ _ Hl Heqo Hc eq_refl).
Qed.

Lemma disk_reachable s : reachable s -> disk_inv s.
Proof.
  induction 1 as [|l s s' Hr IH Hstep];
    eauto using disk_init, disk_step, handshake_reachable, owner_reachable.
Qed.

(** ** The progress counters *)

Lemma free1_bounds b : 0 <= free1 b <= 1.
Proof. unfold free1. destruct (block_map _ _); lia. Qed.
Lemma dirty1_bounds b : 0 <= dirty1 b <= 1.
Proof.
  unfold dirty1. destruct (block_map _ _); [lia|]. destruct (dirty0 _); lia.
Qed.
Lemma pend_free_nonneg pc : 0 <= pend_free pc.
Proof. destruct pc; simpl; try lia. destruct (block_map _ _); lia. Qed.
Lemma pend_mod_nonneg pc : 0 <= pend_mod pc.
Proof.
  destruct pc; simpl; try lia;
    repeat match goal with |- context [if ?b then _ else _] => destruct b end;
    lia.
Qed.
Lemma pend_rw_nonneg pc : 0 <= pend_rw pc.
Proof. destruct pc; simpl; lia. Qed.

Lemma count_init : count_inv init.
Proof.
  unfold count_inv; simpl. rewrite !sumZ_replicate. simpl.
  repeat split; lia.
Qed.

Lemma handoff_sum_bound s (f : Z -> Z) :
  handshake_inv s -> (forall b, 0 <= f b <= 1) ->
  sumZ f (handoff s).*2 <= sumZ f
    (seqZ (s_first_data_block fs)
          (s_blocks_count fs - s_first_data_block fs)) /\
  sumZ f (handoff s).*2 < 2 ^ 32.
Proof.
  destruct WF as (Hf & Hc & _).
  intros (k & Hk0 & Hk & Hh & _)%handoff_prefix Hb.
  rewrite Hh. split.
  - destruct (decide (k = 0)) as [->|].
    { rewrite (seqZ_nil _ 0) by lia. simpl. apply sumZ_nonneg, Hb. }
    replace (s_blocks_count fs - s_first_data_block fs)
      with (k + (s_blocks_count fs - s_first_data_block fs - k)) by lia.
    rewrite seqZ_app, sumZ_app by lia.
    pose proof (sumZ_nonneg f
      (seqZ (s_first_data_block fs + k)
         (s_blocks_count fs - s_first_data_block fs - k))
      (fun b => proj1 (Hb b))). lia.
  - pose proof (sumZ_bounds f (seqZ (s_first_data_block fs) k) Hb) as Hs.
    rewrite length_seqZ in Hs. lia.
Qed.

Lemma count_step l s s' :
  handshake_inv s -> disk_inv s -> count_inv s ->
  step l s = Some s' -> count_inv s'.
Proof.
  intros Hh Hdi (Hfree & Hmod & Hm0 & Hle & Hpct) Hstep.
  pose proof (fun w pc blk => inflight_unwritten s w pc blk Hdi) as Hunw.
  destruct (handoff_sum_bound s free1 Hh free1_bounds) as [_ Hfb].
  destruct Hdi as (_ & _ & Hpc & _).
  destruct l as [|w]; step_inv Hstep; unfold count_inv; simpl;
    try done.
  all: pose proof (Hpc _ _ Heqo) as Hok; simpl in Hok.
  all: pose proof (sumZ_lookup_le pend_free _ _ _ pend_free_nonneg Heqo) as Hl1;
       pose proof (sumZ_lookup_le pend_rw _ _ _ pend_rw_nonneg Heqo) as Hl2;
       simpl in Hl1, Hl2.
  all: rewrite ?fmap_app, ?sumZ_app; simpl.
  all: rewrite ?(sumZ_insert pend_free _ _ _ _ Heqo),
               ?(sumZ_insert pend_mod _ _ _ _ Heqo),
               ?(sumZ_insert pend_rw _ _ _ _ Heqo); simpl.
  all: pose proof (sumZ_nonneg pend_rw (workers s) pend_rw_nonneg) as Hrw0.
  all: rewrite ?to_uint_small by lia.
  all: unfold free1, dirty1, dirty0 in *.
  all: rewrite <- ?(Hunw _ _ _ Heqo eq_refl).
  all: rewrite ?Heqb, ?Heqb0, ?Heqb1; simpl.
  all: try (destruct Hok as (Hok1 & Hok2); try rewrite Hok2).
  all: repeat case_match; simplify_eq; zbool; simpl in *;
       repeat split; try lia; try done; try (f_equal; lia).
Qed.

Lemma count_reachable s : reachable s -> count_inv s.
Proof.
  induction 1 as [|l s s' Hr IH Hstep];
    eauto using count_init, count_step, handshake_reachable, disk_reachable.
Qed.

(** ** The claims about the handoff *)

(** The part of the handoff discipline that holds in every run, with or
    without I/O failures (used for C3 below).  At every reachable state the
    block numbers claimed by workers are, in order, an initial segment of
    [s_first_data_block, s_blocks_count): each of them was claimed once,
    by one worker; when the dispatch loop has ended ([quit] set) they are
    the whole interval.  main writes the job slot only when it is empty, and
    it then publishes a block that was not handed out before; a worker's
    step either leaves the slot and the record of claims alone or claims
    exactly the published block.  Every claimed block is queried in the
    bitmap by its worker (under the worker's [int] copy of the number), and
    nothing else is queried. *)
Theorem single_slot_handoff s :
  reachable s ->
  let first := s_first_data_block fs in
  let count := s_blocks_count fs in
  (exists k, 0 <= k /\ first + k <= Z.max first count /\
             (handoff s).*2 = seqZ first k) /\
  NoDup (handoff s).*2 /\
  (forall b, b ∈ (handoff s).*2 -> first <= b < count) /\
  (forall w w' b, (w, b) ∈ handoff s -> (w', b) ∈ handoff s -> w = w') /\
  (quit s <> 0 -> (handoff s).*2 = seqZ first (count - first)) /\
  (forall s', step Main s = Some s' ->
     job_block_num s' <> job_block_num s \/ do_job s' <> do_job s ->
     do_job s = 0 /\ do_job s' = 1 /\
     (job_block_num s' ∉ (handoff s).*2) /\ handoff s' = handoff s) /\
  (forall w s', step (Worker w) s = Some s' ->
     (handoff s' = handoff s /\ do_job s' = do_job s /\
      job_block_num s' = job_block_num s) \/
     (do_job s <> 0 /\ do_job s' = 0 /\
      handoff s' = handoff s ++ [(w, job_block_num s)] /\
      workers s' !! w = Some (WTest (to_int (job_block_num s))))) /\
  (forall w b, (w, b) ∈ handoff s ->
     TestBitmap w (to_int b) ∈ io_log s \/
     workers s !! w = Some (WTest (to_int b))) /\
  (forall w blk, TestBitmap w blk ∈ io_log s ->
     exists b, (w, b) ∈ handoff s /\ blk = to_int b).
Proof.
  intros Hr first count.
  pose proof (handshake_reachable s Hr) as Hh.
  pose proof (owner_reachable s Hr) as (_ & Hev & Hq).
  destruct (handoff_prefix s Hh) as (k & Hk0 & Hk & Hpre & _).
  destruct (handoff_facts s Hh) as [Hnd Hrange].
  split; [by exists k|]. split; [done|]. split; [done|].
  split; [by intros; eapply handoff_owner|].
  split.
  { intros Hquit. unfold handshake_inv in Hh.
    destruct (main_pc s); intuition lia. }
  split.
  { intros s' Hstep Hch. pose proof Hh as Hh'. unfold handshake_inv in Hh'.
    step_inv Hstep; try (by destruct Hch).
    destruct Hh' as (Hd & _ & ? & ? & Hh').
    repeat split; try done. rewrite Hh', elem_of_seqZ. lia. }
  split.
  { intros w s' Hstep.
    step_inv Hstep; try (by left); right; repeat split; try done;
      apply list_lookup_insert_eq; by eapply lookup_lt_Some. }
  split; [done|].
  intros w blk Hin. exact (Hev _ Hin).
Qed.

(** C10.  The block number a worker tests, reads or writes is the [int]
    copy (line 58) of a block number it claimed from the [unsigned long]
    slot.  For a claimed number below 2^31 the copy is that number; from
    2^31 on it is the number minus 2^32, another value.  In particular the
    worker that claims a pending job below 2^31 goes on to test exactly that
    block, and until the job is over each of its steps keeps that block
    and makes its call, if any, on that block. *)
Theorem block_number_across_handoff s :
  reachable s ->
  (forall w pc blk, workers s !! w = Some pc -> cur_blk pc = Some blk ->
     exists b, (w, b) ∈ handoff s /\ 0 <= b < 2 ^ 32 /\
       (b < 2 ^ 31 -> blk = b) /\ (2 ^ 31 <= b -> blk = b - 2 ^ 32)) /\
  (forall e, e ∈ io_log s ->
     exists b, (ev_worker e, b) ∈ handoff s /\ 0 <= b < 2 ^ 32 /\
       (b < 2 ^ 31 -> ev_blk e = b) /\
       (2 ^ 31 <= b -> ev_blk e = b - 2 ^ 32)) /\
  (forall w s', step (Worker w) s = Some s' ->
     handoff s' = handoff s ++ [(w, job_block_num s)] ->
     0 <= job_block_num s < 2 ^ 32 /\
     (job_block_num s < 2 ^ 31 ->
      workers s' !! w = Some (WTest (job_block_num s))) /\
     (2 ^ 31 <= job_block_num s ->
      workers s' !! w = Some (WTest (job_block_num s - 2 ^ 32)))) /\
  (forall w pc blk s', workers s !! w = Some pc -> cur_blk pc = Some blk ->
     step (Worker w) s = Some s' ->
     (exists pc', workers s' !! w = Some pc' /\
        (cur_blk pc' = Some blk \/ cur_blk pc' = None)) /\
     (io_log s' = io_log s \/
      exists e, io_log s' = io_log s ++ [e] /\
                ev_worker e = w /\ ev_blk e = blk)).
Proof.
  destruct WF as (Hf & Hc & _).
  intros Hr.
  pose proof (handshake_reachable s Hr) as Hh.
  pose proof (owner_reachable s Hr) as (Hcur & Hev & _).
  destruct (handoff_facts s Hh) as [_ Hrange].
  assert (forall w b, (w, b) ∈ handoff s -> 0 <= b < 2 ^ 32) as Hb32.
  { intros w b Hin. assert (b ∈ (handoff s).*2) as Hin2.
    { rewrite list_elem_of_fmap. by exists (w, b). }
    specialize (Hrange _ Hin2). lia. }
  split; [|split; [|split]].
  - intros w pc blk Hw Hblk. destruct (Hcur _ _ _ Hw Hblk) as (b & Hin & ->).
    exists b. pose proof (Hb32 _ _ Hin).
    split; [done|]. split; [lia|].
    split; intros ?; [apply to_int_small | apply to_int_high]; lia.
  - intros e He. destruct (Hev _ He) as (b & Hin & ->).
    exists b. pose proof (Hb32 _ _ Hin).
    split; [done|]. split; [lia|].
    split; intros ?; [apply to_int_small | apply to_int_high]; lia.
  - intros w s' Hstep Hho.
    assert (do_job s <> 0) as Hj.
    { intros Hj0. step_inv Hstep; try lia;
        apply (f_equal length) in Hho; rewrite length_app in Hho;
        simpl in Hho; lia. }
    destruct (pending_job_fresh s Hh Hj) as [_ Hjr].
    split; [lia|].
    assert (workers s' !! w = Some (WTest (to_int (job_block_num s)))) as ->.
    { step_inv Hstep;
        try (apply (f_equal length) in Hho; rewrite length_app in Hho;
             simpl in Hho; lia);
        apply list_lookup_insert_eq; by eapply lookup_lt_Some. }
    split; intros ?; do 2 f_equal;
      [apply to_int_small | apply to_int_high]; lia.
  - intros w pc blk s' Hw Hblk Hstep.
    step_inv Hstep; simplify_eq; simpl in *; simplify_eq.
    all: split;
      [ eexists; split;
        [apply list_lookup_insert_eq; by eapply lookup_lt_Some|]; simpl;
        by auto
      | first [ by left | right; eexists; by repeat split ] ].
Qed.

(** ** The claims about the counters *)

(** C6 (as amended).  [freeBlocks] and [modifiedBlocks] never decrease,
    [0 <= modifiedBlocks <= freeBlocks] always holds, [freeBlocks] never
    exceeds the number of blocks of the range that the bitmap marks free
    (hence it stays within [s_free_blocks_count] whenever the superblock's
    count is at least that number), and every step that changes
    [freeBlocks] adds one to it and sets [percent] to
    [100 * freeBlocks / s_free_blocks_count]. *)
Theorem progress_counters s :
  reachable s ->
  0 <= modifiedBlocks s <= freeBlocks s /\
  freeBlocks s <= free_in_range /\
  (free_in_range <= s_free_blocks_count fs ->
   freeBlocks s <= s_free_blocks_count fs) /\
  (forall l s', step l s = Some s' ->
     freeBlocks s <= freeBlocks s' /\
     modifiedBlocks s <= modifiedBlocks s' /\
     (freeBlocks s' <> freeBlocks s ->
      freeBlocks s' = freeBlocks s + 1 /\
      percent s' = {| num := 100 * freeBlocks s';
                      den := s_free_blocks_count fs |})).
Proof.
  intros Hr.
  pose proof (handshake_reachable s Hr) as Hh.
  pose proof (count_reachable s Hr) as (Hfree & Hmod & Hm0 & Hle & Hpct).
  destruct (handoff_sum_bound s free1 Hh free1_bounds) as [Hfr Hfb].
  pose proof (sumZ_nonneg pend_free (workers s) pend_free_nonneg) as Hp0.
  pose proof (sumZ_nonneg pend_rw (workers s) pend_rw_nonneg) as Hrw0.
  assert (freeBlocks s <= free_in_range) as Hbound.
  { unfold free_in_range. lia. }
  split; [lia|]. split; [done|]. split; [lia|].
  intros l s' Hstep.
  destruct l as [|w]; step_inv Hstep; try (repeat split; (lia || done)).
  - pose proof (sumZ_lookup_le pend_free _ _ _ pend_free_nonneg Heqo) as Hl1.
    simpl in Hl1. rewrite to_uint_small by lia. repeat split; (lia || done).
  - pose proof (sumZ_lookup_le pend_rw _ _ _ pend_rw_nonneg Heqo) as Hl1.
    simpl in Hl1. rewrite to_uint_small by lia. repeat split; (lia || done).
  - pose proof (sumZ_lookup_le pend_rw _ _ _ pend_rw_nonneg Heqo) as Hl1.
    simpl in Hl1. rewrite to_uint_small by lia. repeat split; (lia || done).
Qed.

(** ** The claim about the fill *)

(** C5.  At every reachable state, for a worker [w] processing block [blk]:
    - a block the bitmap marks in use is left at the bitmap test: the worker
      goes to [again] and neither counter nor the volume changes;
    - a free block read as all fill bytes is not written: the worker goes
      to [again] with [modifiedBlocks] and the volume unchanged;
    - a free block read with some byte different from the fill value is
      counted: the next step adds one to [modifiedBlocks], and outside
      dry-run the step after it writes [fs_blocksize] fill bytes, after
      which the block holds fill bytes only and no other block changed;
    - a worker at [again] does no I/O;
    and over the whole run: only blocks marked free are read; only blocks
    marked free whose content at the start of the sweep was not already the
    fill pattern are written, and never in dry-run mode; a block that was
    written holds fill bytes only. *)
Theorem fill_correctness s w blk :
  reachable s ->
  (workers s !! w = Some (WTest blk) -> block_map fs blk = true ->
   exists s', step (Worker w) s = Some s' /\
     workers s' !! w = Some WAgain /\
     freeBlocks s' = freeBlocks s /\ modifiedBlocks s' = modifiedBlocks s /\
     disk s' = disk s /\ io_log s' = io_log s ++ [TestBitmap w blk]) /\
  (workers s !! w = Some (WRead blk) -> read_fails dev blk = false ->
   all_fill (disk s blk) ->
   exists s', step (Worker w) s = Some s' /\
     workers s' !! w = Some WAgain /\
     freeBlocks s' = freeBlocks s /\ modifiedBlocks s' = modifiedBlocks s /\
     disk s' = disk s /\ io_log s' = io_log s ++ [ReadBlk w blk true]) /\
  (workers s !! w = Some (WRead blk) -> read_fails dev blk = false ->
   ~ all_fill (disk s blk) ->
   exists s', step (Worker w) s = Some s' /\
     workers s' !! w = Some (WMod blk) /\ disk s' = disk s) /\
  (workers s !! w = Some (WMod blk) ->
   exists s', step (Worker w) s = Some s' /\
     modifiedBlocks s' = modifiedBlocks s + 1 /\ disk s' = disk s /\
     io_log s' = io_log s /\
     workers s' !! w =
       Some (if dryrun opt =? 0 then WWrite blk else WAgain)) /\
  (workers s !! w = Some (WWrite blk) -> write_fails dev blk = false ->
   exists s', step (Worker w) s = Some s' /\
     workers s' !! w = Some WAgain /\
     disk s' blk =
       replicate (Z.to_nat (fs_blocksize fs)) (fillval opt) /\
     all_fill (disk s' blk) /\
     (forall b, b <> blk -> disk s' b = disk s b) /\
     io_log s' = io_log s ++ [WriteBlk w blk true]) /\
  (workers s !! w = Some WAgain ->
   exists s', step (Worker w) s = Some s' /\
     disk s' = disk s /\ io_log s' = io_log s /\
     freeBlocks s' = freeBlocks s /\ modifiedBlocks s' = modifiedBlocks s) /\
  (forall w' b ok, ReadBlk w' b ok ∈ io_log s -> block_map fs b = false) /\
  (forall w' b ok, WriteBlk w' b ok ∈ io_log s ->
     block_map fs b = false /\ dryrun opt = 0 /\ ~ all_fill (disk0 b)) /\
  (forall w' b, WriteBlk w' b true ∈ io_log s -> all_fill (disk s b)).
Proof.
  destruct WF as (_ & _ & _ & Hfill & Hbs).
  intros Hr.
  pose proof (disk_reachable s Hr) as (Hd & Hnw & Hpc & Hev).
  pose proof (count_reachable s Hr) as (Hfree & Hmod & Hm0 & Hle & Hpct).
  destruct (handoff_sum_bound s free1 (handshake_reachable s Hr) free1_bounds)
    as [_ Hfb].
  pose proof (sumZ_nonneg pend_free (workers s) pend_free_nonneg) as Hp0.
  assert (to_uchar (fillval opt) = fillval opt) as Huc.
  { unfold to_uchar. rewrite Z.mod_small; lia. }
  assert (all_fill (empty (fs_blocksize fs) (fillval opt))) as Hempty.
  { intros j Hj. by rewrite nth_empty, Huc. }
  repeat split.
  - intros Hw Hmap. eexists. simpl. unfold worker_step. rewrite Hw, Hmap.
    split; [done|]. simpl. split; [|done].
    apply list_lookup_insert_eq. by eapply lookup_lt_Some.
  - intros Hw Hrd Hall. eexists. simpl. unfold worker_step.
    rewrite Hw, Hrd.
    assert (already_filled (fs_blocksize fs) (fillval opt) (disk s blk) = true)
      as -> by (apply already_filled_true; [lia|done]).
    split; [done|]. simpl. split; [|done].
    apply list_lookup_insert_eq. by eapply lookup_lt_Some.
  - intros Hw Hrd Hall. eexists. simpl. unfold worker_step.
    rewrite Hw, Hrd.
    assert (already_filled (fs_blocksize fs) (fillval opt) (disk s blk) = false)
      as ->.
    { destruct (already_filled _ _ _) eqn:E; [|done].
      destruct Hall. rewrite already_filled_true in E by lia. done. }
    split; [done|]. simpl. split; [|done].
    apply list_lookup_insert_eq. by eapply lookup_lt_Some.
  - intros Hw.
    pose proof (sumZ_lookup_le pend_rw _ _ _ pend_rw_nonneg Hw) as Hl1.
    simpl in Hl1.
    destruct (dryrun opt =? 0) eqn:E; eexists; simpl; unfold worker_step;
      rewrite Hw, E; simpl; (split; [done|]); simpl;
      rewrite to_uint_small by lia;
      repeat split; apply list_lookup_insert_eq; by eapply lookup_lt_Some.
  - intros Hw Hwr. eexists. simpl. unfold worker_step. rewrite Hw, Hwr.
    split; [done|]. simpl.
    split; [apply list_lookup_insert_eq; by eapply lookup_lt_Some|].
    unfold write_disk. rewrite Z.eqb_refl.
    split; [by unfold empty; rewrite Huc|]. split; [done|]. split; [|done].
    intros b Hb. apply Z.eqb_neq in Hb. by rewrite Hb.
  - intros Hw. eexists. simpl. unfold worker_step. rewrite Hw.
    split; [done|]. unfold loop_head, accept.
    repeat case_match; done.
  - intros w' b ok Hin. exact (Hev _ Hin).
  - by destruct (Hev _ H) as (? & ? & ?).
  - by destruct (Hev _ H) as (? & ? & ?).
  - destruct (Hev _ H) as (_ & Hdirty & _). intros Hall.
    unfold dirty0 in Hdirty. apply andb_prop in Hdirty as [_ Hdirty].
    apply negb_true_iff in Hdirty.
    apply (already_filled_true (fs_blocksize fs)) in Hall; [congruence|lia].
  - intros w' b Hin. destruct (Hd b) as [[Hn _]|[_ ->]]; [|done].
    destruct Hn. by exists w'.
Qed.

(** ** The outcome of a completed sweep *)

Lemma sweep_result s :
  reachable s -> sweep_done s ->
  freeBlocks s = free_in_range /\ modifiedBlocks s = dirty_in_range.
Proof.
  intros Hr [Hquit Hidle].
  pose proof (handshake_reachable s Hr) as Hh.
  pose proof (count_reachable s Hr) as (Hfree & Hmod & _).
  assert ((handoff s).*2 =
          seqZ (s_first_data_block fs)
               (s_blocks_count fs - s_first_data_block fs)) as Hall.
  { unfold handshake_inv in Hh. destruct (main_pc s); intuition lia. }
  assert (forall f : wpc -> Z,
            (forall pc, cur_blk pc = None -> f pc = 0) ->
            sumZ f (workers s) = 0) as Hzero.
  { intros f Hf. apply sumZ_zero. intros pc Hin.
    apply list_elem_of_lookup in Hin as [w Hw]. eauto. }
  rewrite Hzero in Hfree by (by intros []).
  rewrite Hzero in Hmod by (by intros []).
  unfold free_in_range, dirty_in_range. rewrite <- Hall. lia.
Qed.

Lemma dry_run_no_write s :
  reachable s -> dryrun opt <> 0 ->
  (forall b, disk s b = disk0 b) /\
  (forall w b ok, WriteBlk w b ok ∉ io_log s).
Proof.
  intros Hr Hdry.
  pose proof (disk_reachable s Hr) as (Hd & _ & _ & Hev).
  assert (forall w b ok, WriteBlk w b ok ∉ io_log s) as Hnw.
  { intros w b ok Hin. by destruct (Hev _ Hin) as (_ & _ & ?). }
  split; [|done].
  intros b. destruct (Hd b) as [[_ ?]|[[w Hw] _]]; [done|].
  by destruct (Hnw _ _ _ Hw).
Qed.

(** ** What a sweep leaves on the volume *)

Lemma empty_all_fill : all_fill (empty (fs_blocksize fs) (fillval opt)).
Proof.
  destruct WF as (_ & _ & _ & Hfill & _).
  intros j Hj. rewrite nth_empty by done. unfold to_uchar.
  rewrite Z.mod_small; lia.
Qed.

Lemma settled_init : settled_inv init.
Proof. by intros w b ?%elem_of_nil. Qed.

Lemma settled_step l s s' :
  settled_inv s -> step l s = Some s' -> settled_inv s'.
Proof.
  destruct WF as (_ & _ & _ & _ & Hbs).
  intros Hinv Hstep. pose proof empty_all_fill as Hemp.
  destruct l as [|w]; step_inv Hstep; unfold settled_inv, job_settled in *;
    simpl; try done.
  all: intros w0 b0 Hin.
  all: try (apply elem_of_app in Hin as [Hin|Hin%list_elem_of_singleton];
            [| simplify_eq; right; right; left; eexists;
               split; [apply list_lookup_insert_eq; by eapply lookup_lt_Some
                      |done]]).
  all: destruct (Hinv _ _ Hin) as [H|[H|[(pc & Hl & Hc)|[H|[H|H]]]]].
  all: try (by left).
  all: try (by right; left).
  all: try (by right; right; right; left).
  all: try (by right; right; right; right; rewrite ?elem_of_app; auto).
  all: try (by right; left; unfold write_disk;
            destruct (_ =? _); [exact Hemp|done]).
  all: destruct (decide (w0 = w)) as [->|Hne];
    [ | by right; right; left; exists pc; rewrite list_lookup_insert_ne ].
  all: simplify_eq; simpl in Hc; simplify_eq.
  all: try (by right; right; left; eexists;
            split; [apply list_lookup_insert_eq; by eapply lookup_lt_Some
                   |done]).
  all: try (by right; right; right; right;
            rewrite ?elem_of_app, ?list_elem_of_singleton; auto).
  all: try (by right; left; unfold write_disk; rewrite Z.eqb_refl).
  all: try (by right; left;
            match goal with H : already_filled _ _ _ = true |- _ =>
              exact (proj1 (already_filled_true _ _ _ (proj1 Hbs)) H) end).
  all: try (by right; right; right; left; lia).
  all: by left.
Qed.

Lemma settled_reachable s : reachable s -> settled_inv s.
Proof.
  induction 1 as [|l s s' Hr IH Hstep];
    eauto using settled_init, settled_step.
Qed.

(** ** Each call is made once per block *)

Lemma once_init : once_inv init.
Proof.
  split; simpl.
  - constructor.
  - by intros w pc blk e _ _ ?%elem_of_nil.
Qed.

Lemma NoDup_snoc_key (l : list io_event) (e : io_event) :
  NoDup (ev_key <$> l) ->
  (forall e', e' ∈ l -> ev_blk e' = ev_blk e -> ev_kind e' <> ev_kind e) ->
  NoDup (ev_key <$> (l ++ [e])).
Proof.
  intros Hnd Hfresh. rewrite fmap_app. apply list.NoDup_app.
  split; [done|]. split; [|apply list.NoDup_singleton].
  intros k Hk Hk'. apply list_elem_of_singleton in Hk'. subst k.
  apply list_elem_of_fmap in Hk as (e' & Heq & Hin).
  unfold ev_key in Heq. simplify_eq.
  by eapply Hfresh.
Qed.

Lemma once_step l s s' :
  handshake_inv s -> owner_inv s -> once_inv s ->
  step l s = Some s' -> once_inv s'.
Proof.
  intros Hh Ho [Hnd Hst] Hstep.
  pose proof (fun w w0 pc pc0 blk =>
                inflight_distinct s w w0 pc pc0 blk Hh Ho) as Hdist.
  pose proof (fun e => pending_untouched s e Hh Ho) as Hpend.
  destruct l as [|w]; step_inv Hstep; unfold once_inv; simpl; try done.
  all: split.
  all: try exact Hnd.
  all: try (apply NoDup_snoc_key; [exact Hnd|]; simpl;
            intros e' He' Hb' Hk';
            pose proof (Hst _ _ _ _ Heqo eq_refl He' Hb') as Hlt;
            simpl in Hlt; lia).
  all: intros w0 pc0 blk0 e Hl Hc He Hb.
  all: rewrite ?elem_of_app, ?list_elem_of_singleton in He.
  all: lookup_pc w0 Hl; simpl in *; simplify_eq.
  all: try (by eapply Hst; eauto).
  all: try (by exfalso; eapply (Hpend e); eauto).
  all: try (destruct He as [He| ->]; simpl in *;
            [ first [ by eapply Hst; eauto
                    | pose proof (Hst _ _ _ _ Heqo eq_refl He eq_refl) as Hlt;
                      simpl in Hlt; lia ]
            | first [ lia
                    | by pose proof (Hdist _ _ _ _ _ Hl Heqo Hc eq_refl) ] ]).
  all: pose proof (Hst _ _ _ _ Heqo eq_refl He eq_refl) as Hlt;
       simpl in Hlt; lia.
Qed.

Lemma once_reachable s : reachable s -> once_inv s.
Proof.
  induction 1 as [|l s s' Hr IH Hstep];
    eauto using once_init, once_step, handshake_reachable, owner_reachable.
Qed.

Lemma order_init : order_inv init.
Proof.
  split; simpl.
  - intros w pc blk Hl. by apply lookup_replicate in Hl as [-> _].
  - by intros j e ?.
Qed.

Lemma order_snoc (l : list io_event) (e0 : io_event) :
  (forall j e, l !! j = Some e ->
     (ev_kind e = 1 ->
      exists i, (i < j)%nat /\
        l !! i = Some (TestBitmap (ev_worker e) (ev_blk e))) /\
     (ev_kind e = 2 ->
      exists i, (i < j)%nat /\
        l !! i = Some (ReadBlk (ev_worker e) (ev_blk e) true))) ->
  (ev_kind e0 = 1 -> TestBitmap (ev_worker e0) (ev_blk e0) ∈ l) ->
  (ev_kind e0 = 2 -> ReadBlk (ev_worker e0) (ev_blk e0) true ∈ l) ->
  forall j e, (l ++ [e0]) !! j = Some e ->
     (ev_kind e = 1 ->
      exists i, (i < j)%nat /\
        (l ++ [e0]) !! i = Some (TestBitmap (ev_worker e) (ev_blk e))) /\
     (ev_kind e = 2 ->
      exists i, (i < j)%nat /\
        (l ++ [e0]) !! i = Some (ReadBlk (ev_worker e) (ev_blk e) true)).
Proof.
  intros Hold H1 H2 j e Hj.
  apply lookup_app_Some in Hj as [Hj|[Hlen Hj]].
  - destruct (Hold _ _ Hj) as [Ha Hb].
    split; intros Hk; [destruct (Ha Hk) as (i & Hi & Hl)
                      |destruct (Hb Hk) as (i & Hi & Hl)];
      exists i; (split; [done|]); by apply lookup_app_l_Some.
  - apply list_lookup_singleton_Some in Hj as [Hj ->].
    split; intros Hk; [specialize (H1 Hk); apply list_elem_of_lookup in H1 as [i Hl]
                      |specialize (H2 Hk); apply list_elem_of_lookup in H2 as [i Hl]];
      exists i; pose proof (lookup_lt_Some _ _ _ Hl);
      (split; [lia|]); by apply lookup_app_l_Some.
Qed.

Lemma order_step l s s' :
  order_inv s -> step l s = Some s' -> order_inv s'.
Proof.
  intros [Hpc Hlog] Hstep.
  destruct l as [|w]; step_inv Hstep; unfold order_inv; simpl; try done.
  all: pose proof (fun blk => Hpc _ _ blk Heqo) as Hme; simpl in Hme.
  all: split.
  all: try exact Hlog.
  all: try (apply order_snoc; [exact Hlog|..]; simpl; intros; try lia;
            by apply (Hme _ eq_refl)).
  all: intros w0 pc0 blk0 Hl Hc.
  all: rewrite ?elem_of_app, ?list_elem_of_singleton.
  all: lookup_pc w0 Hl; simpl in *; simplify_eq.
  all: try (by destruct (Hpc _ _ _ Hl Hc); split; auto).
  all: try (by split; intros; try lia; auto).
  all: try (by destruct (Hme _ eq_refl); split; intros; try lia; auto).
  all: destruct (Hme _ eq_refl) as [Ht _]; split; intros;
       [left; apply Ht; lia | by right].
Qed.

Lemma order_reachable s : reachable s -> order_inv s.
Proof.
  induction 1 as [|l s s' Hr IH Hstep]; eauto using order_init, order_step.
Qed.

(** ** The end of main *)

Lemma report_init : report_inv init.
Proof. done. Qed.

Lemma report_step l s s' :
  exit_inv s -> report_inv s -> step l s = Some s' -> report_inv s'.
Proof.
  destruct WF as (_ & _ & Hmax & _).
  intros (Hlen & _ & Hjoin) Hrep Hstep. unfold report_inv in *.
  destruct l as [|w].
  - step_inv Hstep; rewrite ?Heqb1, ?Heqb0; simpl; try done.
    all: repeat case_match; zbool; simpl in *; try done; try lia.
  - assert (main_pc s' = main_pc s /\ summary s' = summary s /\
            (forall c, main_pc s = MExit c -> False)) as (Hpc & Hsum & Hne).
    { step_inv Hstep; repeat split; try done.
      all: intros c Hc; rewrite Hc in Hjoin.
      all: assert (Z.of_nat w < max_threads opt) as Hw
             by (apply lookup_lt_Some in Heqo; lia).
      all: specialize (Hjoin _ Hw); congruence. }
    rewrite Hpc, Hsum. destruct (main_pc s); try done. by destruct (Hne code).
Qed.

Lemma report_reachable s : reachable s -> report_inv s.
Proof.
  induction 1 as [|l s s' Hr IH Hstep];
    eauto using report_init, report_step, exit_reachable.
Qed.

(** ** Further properties of the sweep *)

Lemma sumZ_le {A} (f g : A -> Z) l :
  (forall x, f x <= g x) -> sumZ f l <= sumZ g l.
Proof.
  intros Hfg. induction l as [|x l IH]; simpl; [lia|].
  specialize (Hfg x). lia.
Qed.

(** X1.  A block differs from its content at the start of the sweep only
    if it is the [int] copy of a claimed block number of the range, the
    bitmap marks it free, the run is no dry run and the worker that
    claimed it wrote it successfully; it then holds [fs_blocksize] fill
    bytes.  So a block in use, and a block that is no copy of a number of
    the range, keep their content in every reachable state. *)
Theorem only_claimed_free_blocks_change s blk :
  reachable s ->
  (disk s blk = disk0 blk \/
   (disk s blk = empty (fs_blocksize fs) (fillval opt) /\
    all_fill (disk s blk) /\
    block_map fs blk = false /\ dryrun opt = 0 /\
    exists w b, (w, b) ∈ handoff s /\
      s_first_data_block fs <= b < s_blocks_count fs /\
      blk = to_int b /\ WriteBlk w blk true ∈ io_log s)) /\
  (block_map fs blk = true -> disk s blk = disk0 blk) /\
  ((forall b, s_first_data_block fs <= b < s_blocks_count fs ->
              to_int b <> blk) ->
   disk s blk = disk0 blk).
Proof.
  intros Hr.
  pose proof (handshake_reachable s Hr) as Hh.
  pose proof (owner_reachable s Hr) as (_ & Hev & _).
  pose proof (disk_reachable s Hr) as (Hd & _ & _ & Hok).
  destruct (handoff_facts s Hh) as [_ Hrange].
  assert (disk s blk = disk0 blk \/
   (disk s blk = empty (fs_blocksize fs) (fillval opt) /\
    all_fill (disk s blk) /\
    block_map fs blk = false /\ dryrun opt = 0 /\
    exists w b, (w, b) ∈ handoff s /\
      s_first_data_block fs <= b < s_blocks_count fs /\
      blk = to_int b /\ WriteBlk w blk true ∈ io_log s)) as Hcases.
  { destruct (Hd blk) as [[_ ?]|[[w Hw] Hdisk]]; [by left|]. right.
    destruct (Hok _ Hw) as (Hfree & _ & Hdry).
    destruct (Hev _ Hw) as (b & Hb & Hblk). simpl in Hb, Hblk.
    split; [done|]. split; [rewrite Hdisk; apply empty_all_fill|].
    split; [done|]. split; [done|].
    exists w, b. split; [done|]. split; [|done].
    apply Hrange. rewrite list_elem_of_fmap. by exists (w, b). }
  split; [exact Hcases|]. split.
  - intros Huse. destruct Hcases as [?|(_ & _ & Hfree & _)]; [done|congruence].
  - intros Hout.
    destruct Hcases as [?|(_ & _ & _ & _ & w & b & _ & Hb & Hblk & _)];
      [done|]. by destruct (Hout b Hb).
Qed.

(** X2.  [modifiedBlocks] never exceeds the number of free blocks of the
    range whose read succeeds and whose initial content differs from the
    fill pattern, itself at most the number of free blocks of the range;
    when the dispatch loop has ended and no job is in progress the two
    counters equal these two numbers, under every schedule. *)
Theorem completed_sweep_counts s :
  reachable s ->
  modifiedBlocks s <= dirty_in_range /\
  dirty_in_range <= free_in_range /\
  (sweep_done s ->
   freeBlocks s = free_in_range /\ modifiedBlocks s = dirty_in_range).
Proof.
  intros Hr.
  pose proof (handshake_reachable s Hr) as Hh.
  pose proof (count_reachable s Hr) as (_ & Hmod & _).
  destruct (handoff_sum_bound s dirty1 Hh dirty1_bounds) as [Hdr _].
  pose proof (sumZ_nonneg pend_mod (workers s) pend_mod_nonneg) as Hp0.
  split; [unfold dirty_in_range; lia|]. split.
  - apply sumZ_le. intros b. unfold dirty1, free1.
    destruct (block_map _ _); [lia|]. destruct (dirty0 _); lia.
  - by apply sweep_result.
Qed.

Lemma sweep_fills s :
  reachable s -> sweep_done s -> dryrun opt = 0 ->
  (forall w blk, ReadBlk w blk false ∉ io_log s) ->
  (forall w blk, WriteBlk w blk false ∉ io_log s) ->
  forall b, s_first_data_block fs <= b < s_blocks_count fs ->
    block_map fs (to_int b) = false -> all_fill (disk s (to_int b)).
Proof.
  intros Hr [Hquit Hidle] Hdry Hrd Hwr b Hb Hfree.
  pose proof (handshake_reachable s Hr) as Hh.
  assert ((handoff s).*2 =
          seqZ (s_first_data_block fs)
               (s_blocks_count fs - s_first_data_block fs)) as Hall.
  { unfold handshake_inv in Hh. destruct (main_pc s); intuition lia. }
  assert (b ∈ (handoff s).*2) as Hin.
  { rewrite Hall, elem_of_seqZ. lia. }
  apply list_elem_of_fmap in Hin as ([w b'] & Heq & Hin). simpl in Heq.
  subst b'.
  destruct (settled_reachable s Hr w b Hin)
    as [H|[H|[(pc & Hl & Hc)|[H|[H|H]]]]].
  - congruence.
  - done.
  - specialize (Hidle _ _ Hl). congruence.
  - done.
  - by destruct (Hrd w (to_int b)).
  - by destruct (Hwr w (to_int b)).
Qed.

(** A volume whose free blocks of the range hold fill bytes only is left
    alone: nothing is written, nothing changes and [modifiedBlocks] stays
    0. *)
Lemma clean_volume_stays s :
  (forall b, s_first_data_block fs <= b < s_blocks_count fs ->
     block_map fs (to_int b) = false -> all_fill (disk0 (to_int b))) ->
  reachable s ->
  modifiedBlocks s = 0 /\
  (forall blk, disk s blk = disk0 blk) /\
  (forall w blk ok, WriteBlk w blk ok ∉ io_log s).
Proof.
  destruct WF as (_ & _ & _ & _ & Hbs).
  intros Hclean Hr.
  pose proof (handshake_reachable s Hr) as Hh.
  pose proof (owner_reachable s Hr) as (_ & Hev & _).
  pose proof (disk_reachable s Hr) as (Hd & _ & _ & Hok).
  pose proof (count_reachable s Hr) as (_ & Hmod & Hm0 & _).
  destruct (handoff_facts s Hh) as [_ Hrange].
  assert (forall b, s_first_data_block fs <= b < s_blocks_count fs ->
            block_map fs (to_int b) = false ->
            dirty0 (to_int b) = false) as Hnd.
  { intros b Hb Hfree. unfold dirty0.
    rewrite (proj2 (already_filled_true _ _ _ (proj1 Hbs))
               (Hclean b Hb Hfree)).
    by rewrite andb_false_r. }
  assert (forall w blk ok, WriteBlk w blk ok ∉ io_log s) as Hnw.
  { intros w blk ok Hin. destruct (Hok _ Hin) as (Hfree & Hdirty & _).
    destruct (Hev _ Hin) as (b & Hb & Hblk). simpl in Hb, Hblk. subst blk.
    rewrite Hnd in Hdirty; [done| |done].
    apply Hrange. rewrite list_elem_of_fmap. by exists (w, b). }
  split; [|split; [|done]].
  - assert (sumZ dirty1 (handoff s).*2 = 0) as Hz.
    { apply sumZ_zero. intros b Hb. unfold dirty1.
      destruct (block_map fs (to_int b)) eqn:E; [done|].
      by rewrite Hnd by auto. }
    pose proof (sumZ_nonneg pend_mod (workers s) pend_mod_nonneg). lia.
  - intros blk. destruct (Hd blk) as [[_ ?]|[[w Hw] _]]; [done|].
    by destruct (Hnw _ _ _ Hw).
Qed.

(** X3.  When the dispatch loop has ended and no job is in progress, in a
    run that is no dry run and in which no read and no write failed, every
    block of the range that the bitmap marks free holds fill bytes only
    (the block is addressed by the [int] copy of its number). *)
Theorem completed_sweep_fills_free_blocks s :
  reachable s -> sweep_done s -> dryrun opt = 0 ->
  (forall w blk, ReadBlk w blk false ∉ io_log s) ->
  (forall w blk, WriteBlk w blk false ∉ io_log s) ->
  forall b, s_first_data_block fs <= b < s_blocks_count fs ->
    block_map fs (to_int b) = false -> all_fill (disk s (to_int b)).
Proof. apply sweep_fills. Qed.

(** X5.  In the log of calls of a run no block is tested twice, read twice
    or written twice; a read stands after the bitmap test of the same
    block by the same worker and a write after the successful read of
    that block by that worker. *)
Theorem each_call_once_and_in_order s :
  reachable s ->
  (forall i j e e', io_log s !! i = Some e -> io_log s !! j = Some e' ->
     ev_kind e = ev_kind e' -> ev_blk e = ev_blk e' -> i = j) /\
  (forall j w blk ok, io_log s !! j = Some (ReadBlk w blk ok) ->
     exists i, (i < j)%nat /\ io_log s !! i = Some (TestBitmap w blk)) /\
  (forall j w blk ok, io_log s !! j = Some (WriteBlk w blk ok) ->
     exists i, (i < j)%nat /\ io_log s !! i = Some (ReadBlk w blk true)).
Proof.
  intros Hr.
  destruct (once_reachable s Hr) as [Hnd _].
  destruct (order_reachable s Hr) as [_ Hlog].
  split; [|split].
  - intros i j e e' Hi Hj Hk Hb.
    eapply NoDup_lookup; [exact Hnd|..]; rewrite list_lookup_fmap.
    + by rewrite Hi.
    + rewrite Hj. simpl. unfold ev_key. by rewrite Hk, Hb.
  - intros j w blk ok Hj. by destruct (Hlog _ _ Hj) as [H _]; apply H.
  - intros j w blk ok Hj. by destruct (Hlog _ _ Hj) as [_ H]; apply H.
Qed.

(** X6.  In a run in which no block read or write fails, [runningThreads]
    is at every moment the number of workers that hold a job (between the
    acceptance of line 59 and the decrement of line 111), so it lies
    between 0 and [max_threads]. *)
Theorem running_count_without_failures s :
  (forall b, read_fails dev b = false) ->
  (forall b, write_fails dev b = false) ->
  reachable s ->
  runningThreads s = sumZ active (workers s) /\
  0 <= runningThreads s <= max_threads opt.
Proof.
  intros Hrd Hwr Hr.
  destruct (running_reachable s Hrd Hwr Hr) as [[_ Hrun] Hb]. done.
Qed.

(** X8.  When main has returned, its value is 1 if [ext2fs_close] failed
    and 0 otherwise, whatever happened to the workers; with [-v] the
    summary holds the final [modifiedBlocks], [freeBlocks] and
    [s_blocks_count], without it nothing is reported; every block number
    of the range was handed out, and no thread can take a step any more. *)
Theorem return_value_of_main s c :
  reachable s -> main_pc s = MExit c ->
  c = (if close_fails dev then 1 else 0) /\
  summary s =
    (if verbose opt =? 0 then None
     else Some (modifiedBlocks s, freeBlocks s, s_blocks_count fs)) /\
  (handoff s).*2 =
    seqZ (s_first_data_block fs)
         (s_blocks_count fs - s_first_data_block fs) /\
  (forall l, step l s = None).
Proof.
  destruct WF as (_ & _ & Hmax & _).
  intros Hr Hc.
  pose proof (report_reachable s Hr) as Hrep. unfold report_inv in Hrep.
  pose proof (handshake_reachable s Hr) as Hh. unfold handshake_inv in Hh.
  destruct (exit_reachable s Hr) as (Hlen & _ & Hjoin).
  rewrite Hc in *. destruct Hrep as [-> Hsum].
  split; [done|]. split; [done|]. split; [by destruct Hh as (_ & _ & ?)|].
  intros [|w]; simpl.
  - unfold main_step. by rewrite Hc.
  - unfold worker_step. destruct (workers s !! w) as [pc|] eqn:E; [|done].
    assert (Z.of_nat w < max_threads opt) as Hw
      by (apply lookup_lt_Some in E; lia).
    rewrite (Hjoin _ Hw) in E. by simplify_eq.
Qed.

(** ** Error messages *)

Lemma msg_init : msg_inv init.
Proof.
  split; [done|]. split.
  - intros w pc e _ _ He. simpl in He. by apply elem_of_nil in He.
  - intros i j e e' Hi. simpl in Hi. by rewrite lookup_nil in Hi.
Qed.

Lemma last_snoc (l : list io_event) e0 i j e e' :
  (forall i j e e', l !! i = Some e -> l !! j = Some e' ->
     ev_msg e <> None -> ev_worker e' = ev_worker e -> (j <= i)%nat) ->
  (forall e, e ∈ l -> ev_worker e = ev_worker e0 -> ev_msg e = None) ->
  (l ++ [e0]) !! i = Some e -> (l ++ [e0]) !! j = Some e' ->
  ev_msg e <> None -> ev_worker e' = ev_worker e -> (j <= i)%nat.
Proof.
  intros IH Hnone Hi Hj Hm Hw.
  apply lookup_snoc_Some in Hi as [[Hil Hi]|[-> <-]];
    apply lookup_snoc_Some in Hj as [[Hjl Hj]|[-> <-]]; try lia.
  - eauto.
  - destruct Hm. apply Hnone; [by eapply list_elem_of_lookup_2|done].
Qed.

Lemma msg_step l s s' :
  reachable s -> msg_inv s -> step l s = Some s' -> msg_inv s'.
Proof.
  intros Hr (Herr & Hnone & Hlast) Hstep.
  destruct (exit_reachable s Hr) as (Hlen & _ & Hjoin).
  destruct l as [|w].
  { step_inv Hstep; unfold msg_inv; simpl; rewrite ?app_nil_r in *;
      (split; [congruence|]); by split. }
  assert (close_msg (main_pc s) = []) as Hcl.
  { destruct (main_pc s) eqn:E; try done. simpl in Hstep.
    unfold worker_step in Hstep.
    destruct (workers s !! w) as [pc|] eqn:E2; [|done].
    assert (Z.of_nat w < max_threads opt) as Hw
      by (apply lookup_lt_Some in E2; lia).
    rewrite (Hjoin _ Hw) in E2. by simplify_eq. }
  rewrite Hcl, app_nil_r in Herr.
  assert (main_pc s' = main_pc s) as Hpc
    by (step_inv Hstep; done).
  unfold msg_inv. rewrite Hpc, Hcl, app_nil_r. clear Hpc Hcl Hjoin.
  step_inv Hstep; rewrite ?omap_app; simpl; rewrite ?app_nil_r.
  all: (split; [congruence|]); split.
  all: try exact Hlast.
  all: try (intros i j e e'; apply last_snoc; [exact Hlast|];
            intros e1 He1 Hw1; eapply Hnone; [eassumption|done|done|done]).
  all: intros w0 pc0 e Hl Hpc0 He Hw0; try lookup_pc w0 Hl; try done;
       rewrite ?elem_of_app, ?list_elem_of_singleton in He;
       try (by eapply Hnone; [eassumption|done|done|done]).
  all: destruct He as [He| ->]; try done;
       try (by eapply Hnone; [eassumption|done|done|done]).
Qed.

Lemma msg_reachable s : reachable s -> msg_inv s.
Proof.
  induction 1 as [|l s s' Hr IH Hstep]; eauto using msg_init, msg_step.
Qed.

(** X15.  Lines 82-86, 102-108, 115-118 and 261-265.  In a run without
    [-v] (where lines 75-80 print nothing) what stderr holds is, up to the
    order among workers, one message for each failed read or write,
    followed by main's message when the close failed.  With or without
    [-v], a worker thread is on its way out exactly when one of its calls
    has failed, and a worker issues no call after a failed one, so that
    each worker fails at most once. *)
Theorem error_messages_match_failures s :
  reachable s ->
  (verbose opt = 0 ->
   (exists ms, stderr s = ms ++ close_msg (main_pc s) /\
               ms ≡ₚ omap ev_msg (io_log s)) /\
   (forall c, main_pc s = MExit c ->
      close_msg (main_pc s) =
        if close_fails dev then ["error while closing filesystem"%string]
        else [])) /\
  (forall w pc, workers s !! w = Some pc ->
     (on_finish pc = true <->
      exists e, e ∈ io_log s /\ ev_worker e = w /\ ev_msg e <> None)) /\
  (forall i j e e', io_log s !! i = Some e -> io_log s !! j = Some e' ->
     ev_msg e <> None -> ev_worker e' = ev_worker e -> (j <= i)%nat).
Proof.
  intros Hr.
  destruct (msg_reachable s Hr) as (Herr & Hnone & Hlast).
  destruct (exit_reachable s Hr) as (_ & Hfin & _).
  pose proof (report_reachable s Hr) as Hrep. unfold report_inv in Hrep.
  split; [|split; [|done]].
  - intros _. split; [by eexists|].
    intros c Hc. rewrite Hc in *. destruct Hrep as [-> _]. simpl.
    by destruct (close_fails dev).
  - intros w pc Hw. split.
    + intros Hf. destruct (Hfin _ _ Hw Hf) as (blk & [Hin|Hin]);
        eexists; (split; [exact Hin|]); by split.
    + intros (e & He & Hew & Hm). destruct (on_finish pc) eqn:E; [done|].
      destruct Hm. by eapply Hnone.
Qed.

(** ** The sweep cannot run for ever, and without I/O failures it blocks
    only at the joins *)

Lemma pc_weight_nonneg pc : 0 <= pc_weight pc.
Proof. destruct pc; simpl; lia. Qed.

Lemma steps_left_nonneg s : 0 <= steps_left s.
Proof.
  destruct WF as (_ & _ & Hmax & _).
  unfold steps_left.
  pose proof (sumZ_nonneg pc_weight (workers s) pc_weight_nonneg).
  destruct (main_pc s); simpl; destruct (do_job s =? 0); lia.
Qed.

Lemma steps_left_step l s s' :
  reachable s -> step l s = Some s' -> steps_left s' < steps_left s.
Proof.
  destruct WF as (Hfirst & Hcount & Hmax & _).
  intros Hr Hstep.
  destruct (exit_reachable s Hr) as (Hlen & _ & Hjoin).
  pose proof (handshake_reachable s Hr) as Hh.
  unfold handshake_inv in Hh.
  destruct l as [|w]; step_inv Hstep; unfold steps_left; simpl;
    rewrite ?Heqm; simpl;
    try (erewrite sumZ_insert by eassumption); simpl.
  all: destruct (do_job s =? 0) eqn:?; zbool; try lia.
  all: rewrite ?Heqm in *.
  all: try (assert (to_ulong (blk + 1) = blk + 1) as ->
              by (unfold to_ulong; apply Z.mod_small; lia)).
  all: try (assert (to_int (i + 1) = i + 1) as ->
              by (unfold to_int; rewrite Z.mod_small by lia; lia)).
  all: lia.
Qed.

Lemma run_steps_left tr : forall s s',
  reachable s -> run tr s = Some s' ->
  Z.of_nat (length tr) + steps_left s' <= steps_left s.
Proof.
  induction tr as [|l tr IH]; intros s s' Hs Hrun; simpl in Hrun.
  - simplify_eq. simpl. lia.
  - destruct (step l s) as [s1|] eqn:E; [|done].
    pose proof (steps_left_step _ _ _ Hs E).
    pose proof (IH s1 s' (reach_step _ _ _ Hs E) Hrun).
    simpl length. lia.
Qed.

Lemma waiting_or_not (l : list wpc) :
  (forall pc, pc ∈ l -> pc = WWait) \/
  (exists w pc, l !! w = Some pc /\ pc <> WWait).
Proof.
  induction l as [|pc l [IH|(w & pc' & Hw & Hne)]].
  - left. intros pc Hpc. by apply elem_of_nil in Hpc.
  - assert (pc = WWait \/ pc <> WWait) as [->|Hne]
      by (destruct pc; first [by left | by right]).
    + left. intros pc Hpc. apply elem_of_cons in Hpc as [->|Hpc]; auto.
    + right. by exists 0%nat, pc.
  - right. by exists (S w), pc'.
Qed.

Lemma progress_or_quiescent s :
  (forall b, read_fails dev b = false) ->
  (forall b, write_fails dev b = false) ->
  reachable s ->
  (exists l s', step l s = Some s') \/ quiescent s.
Proof.
  destruct WF as (_ & _ & Hmax & _).
  intros Hrd Hwr Hr.
  destruct (running_reachable s Hrd Hwr Hr) as [[Hnf Hrun] _].
  destruct (exit_reachable s Hr) as (Hlen & _ & Hjoin).
  pose proof (handshake_reachable s Hr) as Hh.
  unfold handshake_inv in Hh.
  destruct (waiting_or_not (workers s)) as [Hall|(w & pc & Hw & Hne)].
  - rewrite (sumZ_zero active) in Hrun
      by (intros pc Hpc; by rewrite (Hall pc Hpc)).
    destruct (workers s !! 0%nat) as [pc0|] eqn:E0;
      [|apply lookup_ge_None in E0; lia].
    assert (pc0 = WWait) as -> by (eapply Hall, list_elem_of_lookup_2, E0).
    destruct (main_pc s) eqn:Hpc.
    + left. exists Main. simpl. unfold main_step. rewrite Hpc.
      destruct (_ <? _); [|by eexists].
      assert ((runningThreads s >=? max_threads opt) = false) as ->
        by (rewrite Z.geb_leb; apply Z.leb_gt; lia).
      by eexists.
    + left. destruct (do_job s =? 0) eqn:Ed.
      * exists Main. simpl. unfold main_step. rewrite Hpc, Ed. by eexists.
      * exists (Worker 0). simpl. unfold worker_step. rewrite E0, Ed.
        by eexists.
    + right. destruct Hjoin as [Hi Hj].
      assert (i = 0) as ->.
      { destruct (decide (i = 0)) as [|Hne]; [done|].
        assert (workers s !! 0%nat = Some WDone) as Hd
          by (apply Hj; simpl; lia).
        by simplify_eq. }
      destruct Hh as (Hq & Hd & _).
      repeat split; try done. intros w pc Hw.
      eapply Hall, list_elem_of_lookup_2, Hw.
    + exfalso. assert (workers s !! 0%nat = Some WDone) as Hd
        by (apply Hjoin; simpl; lia).
      by simplify_eq.
  - left. exists (Worker w). simpl. unfold worker_step. rewrite Hw.
    pose proof (Hnf _ _ Hw) as Hf.
    destruct pc; try done; repeat case_match; by eexists.
Qed.

Lemma quiescent_stuck s :
  reachable s -> quiescent s -> forall l, step l s = None.
Proof.
  destruct WF as (_ & _ & Hmax & _).
  intros Hr (Hpc & _ & Hd & _ & Hall) l.
  destruct (exit_reachable s Hr) as (Hlen & _).
  destruct l as [|w]; simpl.
  - unfold main_step. rewrite Hpc.
    assert ((0 <? max_threads opt) = true) as -> by (apply Z.ltb_lt; lia).
    change (Z.to_nat 0) with 0%nat.
    destruct (workers s !! 0%nat) as [pc|] eqn:E; [|done].
    by rewrite (Hall _ _ E).
  - unfold worker_step. destruct (workers s !! w) as [pc|] eqn:E; [|done].
    rewrite (Hall _ _ E), Hd. done.
Qed.

Lemma completion_exists n : forall s,
  (forall b, read_fails dev b = false) ->
  (forall b, write_fails dev b = false) ->
  reachable s -> steps_left s <= Z.of_nat n ->
  exists tr s', run tr s = Some s' /\ quiescent s'.
Proof.
  induction n as [|n IH]; intros s Hrd Hwr Hr Hn;
    destruct (progress_or_quiescent s Hrd Hwr Hr) as [(l & s1 & Hstep)|Hq];
    try (by exists [], s).
  - pose proof (steps_left_step _ _ _ Hr Hstep).
    pose proof (steps_left_nonneg s1). lia.
  - pose proof (steps_left_step _ _ _ Hr Hstep).
    destruct (IH s1 Hrd Hwr (reach_step _ _ _ Hr Hstep))
      as (tr & s' & Hrun & Hq); [lia|].
    exists (l :: tr), s'. simpl. by rewrite Hstep.
Qed.

(** X16.  Lines 54-62, 110-112 and 236-255.  When no block read or write
    fails, in every reachable state main or some worker can take a step,
    unless main is at its first join, all workers wait for a job and the
    slot is empty; and in that state nothing can move any more. *)
Theorem sweep_blocks_only_at_the_joins s :
  (forall b, read_fails dev b = false) ->
  (forall b, write_fails dev b = false) ->
  reachable s ->
  ((exists l s', step l s = Some s') \/ quiescent s) /\
  (quiescent s -> forall l, step l s = None).
Proof.
  intros Hrd Hwr Hr. split; [by apply progress_or_quiescent|].
  by apply quiescent_stuck.
Qed.

(** X17.  Lines 44-119 and 236-267.  No schedule runs for ever: the number of
    steps main and the workers take together is bounded by the size of
    the block range and the number of threads, with or without I/O
    failures. *)
Theorem every_run_is_bounded tr s :
  run tr init = Some s ->
  Z.of_nat (length tr) <=
    16 * Z.max 0 (s_blocks_count fs - s_first_data_block fs) +
    10 * max_threads opt + 16.
Proof.
  destruct WF as (_ & _ & Hmax & _).
  intros Hrun.
  pose proof (run_steps_left tr _ _ reach_init Hrun) as Hb.
  pose proof (steps_left_nonneg s).
  unfold steps_left at 2 in Hb. simpl in Hb.
  rewrite sumZ_replicate in Hb. simpl in Hb. lia.
Qed.

(** X18.  Lines 236-250.  When no block read or write fails, every
    reachable state can be continued to the state in which every block of the range
    has been handed over and processed, main is at its first join and the
    two counters have their final values. *)
Theorem sweep_can_always_complete s :
  (forall b, read_fails dev b = false) ->
  (forall b, write_fails dev b = false) ->
  reachable s ->
  exists tr s',
    run tr s = Some s' /\ quiescent s' /\
    (handoff s').*2 =
      seqZ (s_first_data_block fs)
           (s_blocks_count fs - s_first_data_block fs) /\
    freeBlocks s' = free_in_range /\
    modifiedBlocks s' = dirty_in_range.
Proof.
  intros Hrd Hwr Hr.
  destruct (completion_exists (Z.to_nat (steps_left s)) s Hrd Hwr Hr)
    as (tr & s' & Hrun & Hq).
  { pose proof (steps_left_nonneg s). lia. }
  exists tr, s'. split; [done|]. split; [done|].
  pose proof (run_reachable tr s s' Hr Hrun) as Hr'.
  pose proof (handshake_reachable s' Hr') as Hh.
  unfold handshake_inv in Hh.
  destruct Hq as (Hpc & Hquit & _ & _ & Hall). rewrite Hpc in Hh.
  split; [by destruct Hh as (_ & _ & ?)|].
  apply (sweep_result s' Hr'). split; [lia|].
  intros w pc Hw. by rewrite (Hall _ _ Hw).
Qed.

End Sweep.

(** ** Dry run against normal run *)

(** What a dry run and a normal run do share (the report itself is the
    matter of C7 below).  On the same volume and device, with the dry-run
    flag set no block write is ever issued and the content of every block
    stays what it was, and a completed sweep ends with the same
    [freeBlocks] and [modifiedBlocks] as a completed sweep without the
    flag. *)
Theorem dry_run_same_counters fs dev opt disk0 v :
  wf_config fs opt -> v <> 0 ->
  (forall s, reachable fs dev (with_dryrun v opt) disk0 s ->
     (forall b, disk s b = disk0 b) /\
     (forall w b ok, WriteBlk w b ok ∉ io_log s)) /\
  (forall sd sn,
     reachable fs dev (with_dryrun v opt) disk0 sd ->
     reachable fs dev (with_dryrun 0 opt) disk0 sn ->
     sweep_done sd -> sweep_done sn ->
     freeBlocks sd = freeBlocks sn /\
     modifiedBlocks sd = modifiedBlocks sn).
Proof.
  intros Hwf Hv. split.
  - intros s Hr. by apply (dry_run_no_write fs dev (with_dryrun v opt) disk0).
  - intros sd sn Hd Hn Hdd Hdn.
    destruct (sweep_result fs dev (with_dryrun v opt) disk0 Hwf sd Hd Hdd)
      as [-> ->].
    destruct (sweep_result fs dev (with_dryrun 0 opt) disk0 Hwf sn Hn Hdn)
      as [-> ->].
    done.
Qed.

(** *** When the report of line 258 is reached *)

(** When no block read or write fails no worker thread returns, main does
    not get past the joins, and nothing is reported. *)
Lemma never_exits fs dev opt disk0 s :
  wf_config fs opt ->
  (forall b, read_fails dev b = false) ->
  (forall b, write_fails dev b = false) ->
  reachable fs dev opt disk0 s ->
  (forall w, workers s !! w <> Some WDone) /\
  (forall c, main_pc s <> MExit c) /\
  summary s = None.
Proof.
  intros Hwf Hrd Hwr Hr.
  destruct (running_reachable fs dev opt disk0 Hwf s Hrd Hwr Hr)
    as [[Hnf _] _].
  destruct (exit_reachable fs dev opt disk0 Hwf s Hr) as (Hlen & _ & Hjoin).
  pose proof (report_reachable fs dev opt disk0 Hwf s Hr) as Hrep.
  unfold report_inv in Hrep.
  destruct Hwf as (_ & _ & Hmax & _).
  assert (forall w, workers s !! w <> Some WDone) as Hnd.
  { intros w Hw. by apply Hnf in Hw. }
  assert (forall c, main_pc s <> MExit c) as Hne.
  { intros c Hc. rewrite Hc in Hjoin. apply (Hnd 0%nat), Hjoin. simpl. lia. }
  split; [done|]. split; [done|].
  destruct (main_pc s); try done. by destruct (Hne code).
Qed.

(** In a dry run no worker is ever about to write (line 102), ... *)
Lemma dry_run_no_pending_write fs dev opt disk0 s :
  wf_config fs opt -> dryrun opt <> 0 -> reachable fs dev opt disk0 s ->
  forall w blk, workers s !! w <> Some (WWrite blk).
Proof.
  intros Hwf Hdry Hr w blk Hw.
  destruct (disk_reachable fs dev opt disk0 Hwf s Hr) as (_ & _ & Hpc & _).
  by destruct (Hpc _ _ Hw) as (_ & _ & ?).
Qed.

(** ... so what block writes would return does not matter to it: ... *)
Lemma dry_run_same_steps fs dev opt l s :
  (forall w blk, workers s !! w <> Some (WWrite blk)) ->
  step fs (no_write_failures dev) opt l s = step fs dev opt l s.
Proof.
  intros Hnw. destruct l as [|w]; simpl; [done|].
  unfold worker_step. destruct (workers s !! w) as [pc|] eqn:E; [|done].
  destruct pc; try done. by destruct (Hnw w blk).
Qed.

Lemma dry_run_ignores_write_failures fs dev opt disk0 s :
  wf_config fs opt -> dryrun opt <> 0 -> reachable fs dev opt disk0 s ->
  reachable fs (no_write_failures dev) opt disk0 s.
Proof.
  intros Hwf Hdry. induction 1 as [|l s s' Hr IH Hstep].
  - apply reach_init.
  - eapply reach_step; [exact IH|].
    rewrite dry_run_same_steps; [done|].
    by eapply dry_run_no_pending_write.
Qed.

(** ... and a dry run in which no block read fails never gets to the
    report of line 258, whatever the schedule. *)
Lemma dry_run_never_returns fs dev opt disk0 s :
  wf_config fs opt -> dryrun opt <> 0 ->
  (forall b, read_fails dev b = false) ->
  reachable fs dev opt disk0 s ->
  (forall w, workers s !! w <> Some WDone) /\
  (forall c, main_pc s <> MExit c) /\
  summary s = None.
Proof.
  intros Hwf Hdry Hrd Hr.
  apply (never_exits fs (no_write_failures dev) opt disk0); try done.
  by apply dry_run_ignores_write_failures.
Qed.

(** X4.  Sweeping twice.  After a completed sweep that was no dry run and
    in which no read and no write failed, a second sweep of the volume as
    the first one left it, whatever its device and schedule, writes
    nothing, changes no block and counts no block as modified. *)
Theorem second_sweep_rewrites_nothing fs dev dev2 opt disk0 s1 s2 :
  wf_config fs opt -> dryrun opt = 0 ->
  reachable fs dev opt disk0 s1 -> sweep_done s1 ->
  (forall w blk, ReadBlk w blk false ∉ io_log s1) ->
  (forall w blk, WriteBlk w blk false ∉ io_log s1) ->
  reachable fs dev2 opt (disk s1) s2 ->
  modifiedBlocks s2 = 0 /\
  (forall blk, disk s2 blk = disk s1 blk) /\
  (forall w blk ok, WriteBlk w blk ok ∉ io_log s2).
Proof.
  intros Hwf Hdry Hr1 Hdone Hrd Hwr Hr2.
  apply (clean_volume_stays fs dev2 opt (disk s1) Hwf); [|done].
  by apply (sweep_fills fs dev opt disk0 Hwf s1).
Qed.

(** ** Option handling and start of main *)

Lemma handle_option_range c optarg o o' :
  0 <= fillval o <= 255 -> 1 <= max_threads o <= 1024 * 1024 ->
  handle_option c optarg o = Accepted o' ->
  0 <= fillval o' <= 255 /\ 1 <= max_threads o' <= 1024 * 1024.
Proof.
  intros Hf Ht. unfold handle_option.
  destruct (strtol optarg) as [v endptr].
  repeat case_match; intros; simplify_eq; simpl; try done.
  all: repeat match goal with
       | H : (_ || _) = false |- _ => apply orb_false_iff in H as [? ?]
       | H : (_ >? _) = false |- _ => rewrite Z.gtb_ltb in H
       end; zbool.
  - split; [|done].
    unfold to_uint in *. pose proof (Z.mod_pos_bound v (2 ^ 32)). lia.
  - split; [done|lia].
Qed.

Lemma parse_options_range gs : forall o o',
  0 <= fillval o <= 255 -> 1 <= max_threads o <= 1024 * 1024 ->
  parse_options gs o = Accepted o' ->
  0 <= fillval o' <= 255 /\ 1 <= max_threads o' <= 1024 * 1024.
Proof.
  induction gs as [|[c a] gs IH]; intros o o' Hf Ht Hp; simpl in Hp.
  - by simplify_eq.
  - destruct (handle_option c a o) as [|o1] eqn:E; [done|].
    destruct (handle_option_range _ _ _ _ Hf Ht E). eauto.
Qed.

(** X12.  The errors main does detect end it with 1 before the volume
    is opened: a rejected option and a wrong number of positional
    arguments without any library call, a failed mount check (lines
    179-184) and a read-write mount (lines 186-190) after the mount check
    alone; each with its one message. *)
Lemma detected_errors_exit_early gs positional env :
  (forall m, parse_options gs default_options = Rejected m ->
     main_setup gs positional env = ([], [m], Return 1)) /\
  (forall o, parse_options gs default_options = Accepted o ->
     positional <> 1 ->
     main_setup gs positional env = ([], [USAGE], Return 1)) /\
  (forall o, parse_options gs default_options = Accepted o ->
     positional = 1 -> check_if_mounted_ret env <> 0 ->
     main_setup gs positional env =
       ([CheckIfMounted],
        ["failed to determine filesystem mount state"%string], Return 1)) /\
  (forall o, parse_options gs default_options = Accepted o ->
     positional = 1 -> check_if_mounted_ret env = 0 ->
     Z.land (mount_flags env) EXT2_MF_MOUNTED <> 0 ->
     Z.land (mount_flags env) EXT2_MF_READONLY = 0 ->
     main_setup gs positional env =
       ([CheckIfMounted], ["filesystem is mounted rw"%string], Return 1)).
Proof.
  unfold main_setup. repeat split.
  - by intros m ->.
  - intros o -> Hp. apply Z.eqb_neq in Hp. by rewrite Hp.
  - intros o -> -> Hc. simpl. apply Z.eqb_neq in Hc. by rewrite Hc.
  - intros o -> -> Hc Hm Hr. simpl. rewrite Hc. simpl.
    apply Z.eqb_neq in Hm. apply Z.eqb_eq in Hr. by rewrite Hm, Hr.
Qed.

(** C8 (the code departs from it).  [-f 4294967296] names a fill value
    outside 0-255 and [-t 4294967297] a thread count outside 1-1048576,
    yet main prints nothing, opens the volume and starts the sweep, with
    fill value 0 and with one thread: the [long] of strtol is narrowed
    to [unsigned int] (line 144) and to [int] (line 157) before the range
    tests of lines 148 and 161. *)
Theorem range_tests_follow_narrowing :
  main_setup [("f"%char, "4294967296"%string)] 1 quiet_env =
    ([CheckIfMounted; Open EXT2_FLAG_RW; ReadInodeBitmap; CreateThreads 1;
      ReadBlockBitmap], [],
     StartSweep {| dryrun := 0; verbose := 0; fillval := 0;
                   max_threads := 1 |}) /\
  main_setup [("t"%char, "4294967297"%string)] 1 quiet_env =
    ([CheckIfMounted; Open EXT2_FLAG_RW; ReadInodeBitmap; CreateThreads 1;
      ReadBlockBitmap], [],
     StartSweep {| dryrun := 0; verbose := 0; fillval := 0;
                   max_threads := 1 |}).
Proof. split; vm_compute; reflexivity. Qed.

(** C9.  Whatever the options, and so with [-n] too, the only open call
    main makes passes [EXT2_FLAG_RW], and a sweep starts only after that
    call. *)
Theorem open_is_read_write gs positional env :
  (forall flags, Open flags ∈ (main_setup gs positional env).1.1 ->
     flags = EXT2_FLAG_RW) /\
  (forall o, (main_setup gs positional env).2 = StartSweep o ->
     Open EXT2_FLAG_RW ∈ (main_setup gs positional env).1.1).
Proof.
  unfold main_setup.
  destruct (parse_options gs default_options) as [m|o]; simpl.
  { split; [by intros ? ?%elem_of_nil|done]. }
  repeat case_match; simpl; split; try done;
    intros flags Hin; try (by apply elem_of_nil in Hin);
    repeat (apply elem_of_cons in Hin as [Hin|Hin]; simplify_eq; try done);
    try (by apply elem_of_nil in Hin).
  all: rewrite !elem_of_cons; auto.
Qed.

(** With [-n], on an unmounted volume: [dryrun] is set and the volume is
    opened read-write all the same. *)
Lemma open_is_read_write_witness :
  (main_setup [("n"%char, EmptyString)] 1 quiet_env).2 =
    StartSweep {| dryrun := 1; verbose := 0; fillval := 0;
                  max_threads := 1 |} /\
  Open EXT2_FLAG_RW ∈ (main_setup [("n"%char, EmptyString)] 1 quiet_env).1.1.
Proof.
  split; [reflexivity|].
  exact (proj2 (open_is_read_write [("n"%char, EmptyString)] 1 quiet_env)
           _ eq_refl).
Defined.

(** ** Further properties of main before the sweep *)

Lemma handle_option_flags c optarg o o' :
  (dryrun o = 0 \/ dryrun o = 1) -> (verbose o = 0 \/ verbose o = 1) ->
  handle_option c optarg o = Accepted o' ->
  (dryrun o' = 0 \/ dryrun o' = 1) /\ (verbose o' = 0 \/ verbose o' = 1).
Proof.
  intros Hd Hv. unfold handle_option.
  destruct (strtol optarg) as [v endptr].
  repeat case_match; intros; simplify_eq; simpl; auto.
Qed.

Lemma parse_options_flags gs : forall o o',
  (dryrun o = 0 \/ dryrun o = 1) -> (verbose o = 0 \/ verbose o = 1) ->
  parse_options gs o = Accepted o' ->
  (dryrun o' = 0 \/ dryrun o' = 1) /\ (verbose o' = 0 \/ verbose o' = 1).
Proof.
  induction gs as [|[c a] gs IH]; intros o o' Hd Hv Hp; simpl in Hp.
  - by simplify_eq.
  - destruct (handle_option c a o) as [|o1] eqn:E; [done|].
    destruct (handle_option_flags _ _ _ _ Hd Hv E). eauto.
Qed.

(** X9.  Whatever the command line, the options a sweep starts with hold a
    fill value in 0..255, a thread count in 1..1048576 and flags that are
    0 or 1; with superblock fields and a block size that fit their
    32-bit types the configuration is then well formed. *)
Theorem started_sweep_has_checked_options gs positional env o :
  (main_setup gs positional env).2 = StartSweep o ->
  0 <= fillval o <= 255 /\ 1 <= max_threads o <= 1024 * 1024 /\
  (dryrun o = 0 \/ dryrun o = 1) /\ (verbose o = 0 \/ verbose o = 1) /\
  (forall fs, 0 <= s_first_data_block fs < 2 ^ 32 ->
     0 <= s_blocks_count fs < 2 ^ 32 -> 0 <= fs_blocksize fs < 2 ^ 32 ->
     wf_config fs o).
Proof.
  unfold main_setup.
  destruct (parse_options gs default_options) as [m|o1] eqn:E; [done|].
  intros Hs.
  assert (o1 = o) as ->.
  { repeat case_match; simpl in Hs; by simplify_eq. }
  destruct (parse_options_range gs default_options o) as [Hf Ht];
    [simpl; lia..|done|].
  destruct (parse_options_flags gs default_options o) as [Hd Hv];
    [simpl; auto..|done|].
  repeat split; try done; try lia.
Qed.

(** X10.  The options are handled from left to right and the first one
    that is rejected decides: what follows it is not looked at, and main
    returns 1 with that option's message, without any library call. *)
Theorem options_are_handled_in_order gs1 gs2 o :
  parse_options (gs1 ++ gs2) o =
    match parse_options gs1 o with
    | Accepted o' => parse_options gs2 o'
    | Rejected m => Rejected m
    end /\
  (forall m positional env,
     parse_options gs1 default_options = Rejected m ->
     main_setup (gs1 ++ gs2) positional env = ([], [m], Return 1)).
Proof.
  assert (forall o, parse_options (gs1 ++ gs2) o =
    match parse_options gs1 o with
    | Accepted o' => parse_options gs2 o'
    | Rejected m => Rejected m
    end) as Happ.
  { induction gs1 as [|[c a] gs1 IH]; intros o0; simpl; [done|].
    destruct (handle_option c a o0); [done|apply IH]. }
  split; [apply Happ|].
  intros m positional env Hrej. unfold main_setup.
  by rewrite Happ, Hrej.
Qed.

(** X11.  main starts the sweep exactly when the options are accepted,
    one positional argument is left, the mount state can be determined and
    the volume is not mounted or is mounted read-only, and the open, the
    allocation and the two bitmap reads succeed; it has then printed
    nothing on stderr and made its five calls in order, the open with
    [EXT2_FLAG_RW].  In every other case it returns 1 after exactly one
    message. *)
Theorem sweep_starts_exactly_when gs positional env :
  (forall o,
     (main_setup gs positional env).2 = StartSweep o <->
     parse_options gs default_options = Accepted o /\ positional = 1 /\
     check_if_mounted_ret env = 0 /\
     (Z.land (mount_flags env) EXT2_MF_MOUNTED = 0 \/
      Z.land (mount_flags env) EXT2_MF_READONLY <> 0) /\
     open_ret env = 0 /\ malloc_fails env = false /\
     read_inode_bitmap_ret env = 0 /\ read_block_bitmap_ret env = 0) /\
  (forall o, (main_setup gs positional env).2 = StartSweep o ->
     main_setup gs positional env =
       (setup_calls (max_threads o), [], StartSweep o)) /\
  ((forall o, (main_setup gs positional env).2 <> StartSweep o) ->
   (main_setup gs positional env).2 = Return 1 /\
   length (main_setup gs positional env).1.2 = 1%nat).
Proof.
  unfold main_setup, setup_calls.
  destruct (parse_options gs default_options) as [m|o1]; simpl.
  { split; [|split]; try done. intros o. split; [done|]. by intros [? _]. }
  repeat case_match; simpl;
    repeat match goal with
    | H : (_ && _) = true |- _ => apply andb_true_iff in H as [? ?]
    | H : (_ && _) = false |- _ => apply andb_false_iff in H
    end; zbool.
  all: split; [|split].
  all: try (intros o Ho; by simplify_eq).
  all: try (intros Hno; by first [done | destruct (Hno o1)]).
  all: intros o; split; [intros Ho; simplify_eq|intros (Ho & Hrest)];
       simplify_eq.
  all: try (exfalso; intuition congruence).
  all: try (exfalso; intuition lia).
  all: try done.
  all: repeat split; try done; try lia.
  all: intuition lia.
Qed.

(** ** Further properties of the fill test *)

Lemma scan_prefix buf fill n : forall i j,
  (i <= j < scan buf fill i n)%nat -> nth j buf 0 = fill.
Proof.
  induction n as [|n IH]; intros i j Hj; simpl in Hj; [lia|].
  destruct (nth i buf 0 =? fill) eqn:E; simpl in Hj; [|lia].
  apply Z.eqb_eq in E.
  destruct (decide (j = i)) as [->|]; [done|]. apply (IH (S i)). lia.
Qed.

(** X13.  The loop of lines 88-92 stops at the first byte that differs
    from the fill value: its final index [i] is at most the block size,
    every byte before it equals the fill value, the byte at [i] differs
    when [i] is below the block size, and the test of line 94 succeeds
    exactly when all the bytes of the block equal the fill value. *)
Theorem fill_test_finds_first_difference buf fill n :
  (scan buf fill 0 n <= n)%nat /\
  (forall j, (j < scan buf fill 0 n)%nat -> nth j buf 0 = fill) /\
  ((scan buf fill 0 n < n)%nat -> nth (scan buf fill 0 n) buf 0 <> fill) /\
  (already_filled (Z.of_nat n) fill buf = true <->
   forall j, (j < n)%nat -> nth j buf 0 = fill).
Proof.
  split; [|split; [|split]].
  - pose proof (scan_le buf fill n 0). lia.
  - intros j Hj. apply (scan_prefix buf fill n 0). lia.
  - intros Hlt. apply scan_stop. lia.
  - rewrite already_filled_true by lia. by rewrite Nat2Z.id.
Qed.

(** X14.  The buffer that is written (line 207) passes the fill test for
    every validated fill value, so a block that was rewritten is found
    clean when it is read again; with a block size of 0 every block
    passes. *)
Theorem written_buffer_passes_fill_test bs fill :
  0 <= bs -> 0 <= fill <= 255 ->
  length (empty bs fill) = Z.to_nat bs /\
  already_filled bs fill (empty bs fill) = true /\
  (forall buf, already_filled 0 fill buf = true).
Proof.
  intros Hbs Hfill. split; [|split].
  - unfold empty. by rewrite length_replicate.
  - apply already_filled_true; [done|]. intros j Hj.
    rewrite nth_empty by done. unfold to_uchar. rewrite Z.mod_small; lia.
  - done.
Qed.

(** ** The claims on concrete volumes *)

Import Examples.

Ltac by_schedule tr :=
  apply (run_reachable _ _ _ _ tr _ _ (reach_init _ _ _ _));
  vm_compute; reflexivity.

Lemma wf_scenario : wf_config fs_scenario one_thread.
Proof. unfold wf_config; simpl; lia. Defined.

(** With an empty range and one worker: the worker waits, main sets [quit],
    and then neither thread can move: main is blocked in [pthread_join] and
    the worker in the loop of line 54. *)
Lemma quit_is_never_observed_witness :
  wf_config fs_empty one_thread /\
  exists s,
    run fs_empty dev_ok one_thread [W0; Main] (init fs_empty one_thread zeros)
      = Some s /\
    quit s = 1 /\ main_pc s = MJoin 0 /\ workers s = [WWait] /\
    step fs_empty dev_ok one_thread Main s = None /\
    step fs_empty dev_ok one_thread W0 s = None.
Proof.
  assert (wf_config fs_empty one_thread) as Hwf.
  { unfold wf_config; simpl; lia. }
  split; [exact Hwf|].
  eexists. split; [vm_compute; reflexivity|].
  split; [reflexivity|]. split; [reflexivity|]. split; [reflexivity|].
  split; [reflexivity|].
  refine (proj1 (proj2 (quit_is_never_observed
            fs_empty dev_ok one_thread zeros Hwf _ _)) 0%nat _ _).
  - by_schedule [W0; Main].
  - simpl; lia.
  - reflexivity.
Defined.

(** The scenario of the specification, swept by one worker: the ten blocks
    were claimed once each, in order. *)
Lemma single_slot_handoff_witness :
  wf_config fs_scenario one_thread /\
  exists s,
    run fs_scenario dev_ok one_thread (scenario_schedule 6)
        (init fs_scenario one_thread disk_scenario) = Some s /\
    (handoff s).*2 = seqZ 0 10 /\ NoDup (handoff s).*2.
Proof.
  split; [exact wf_scenario|].
  eexists. split; [vm_compute; reflexivity|].
  match goal with |- (handoff ?s).*2 = _ /\ _ =>
    assert (reachable fs_scenario dev_ok one_thread disk_scenario s) as Hr
      by (by_schedule (scenario_schedule 6));
    destruct (single_slot_handoff _ _ _ _ wf_scenario s Hr)
      as (_ & Hnd & _ & _ & Hall & _)
  end.
  split; [|exact Hnd]. apply Hall. simpl. lia.
Defined.

(** In the scenario, when worker 0 is about to write block 4: the write
    leaves block 4 zero throughout. *)
Lemma fill_correctness_witness :
  wf_config fs_scenario one_thread /\
  exists s,
    run fs_scenario dev_ok one_thread schedule_to_write4
        (init fs_scenario one_thread disk_scenario) = Some s /\
    workers s !! 0%nat = Some (WWrite 4) /\ disk s 4 = [0; 7; 0; 0] /\
    exists s', step fs_scenario dev_ok one_thread W0 s = Some s' /\
      disk s' 4 = [0; 0; 0; 0] /\ all_fill fs_scenario one_thread (disk s' 4).
Proof.
  split; [exact wf_scenario|].
  eexists. split; [vm_compute; reflexivity|].
  split; [reflexivity|]. split; [reflexivity|].
  match goal with |- exists s', step _ _ _ _ ?s = _ /\ _ =>
    assert (reachable fs_scenario dev_ok one_thread disk_scenario s) as Hr
      by (by_schedule schedule_to_write4);
    destruct (fill_correctness _ _ _ _ wf_scenario s 0%nat 4 Hr)
      as (_ & _ & _ & _ & Hwrite & _)
  end.
  destruct (Hwrite eq_refl eq_refl) as (s' & Hstep & _ & Hd & Hall & _).
  exists s'. split; [exact Hstep|]. split; [exact Hd|exact Hall].
Defined.

(** At the end of the scenario sweep: 2 blocks rewritten out of 4 free
    ones, which is the number of free blocks of the bitmap. *)
Lemma progress_counters_witness :
  wf_config fs_scenario one_thread /\
  exists s,
    run fs_scenario dev_ok one_thread (scenario_schedule 6)
        (init fs_scenario one_thread disk_scenario) = Some s /\
    freeBlocks s = 4 /\ modifiedBlocks s = 2 /\
    0 <= modifiedBlocks s <= freeBlocks s /\
    freeBlocks s <= free_in_range fs_scenario.
Proof.
  split; [exact wf_scenario|].
  eexists. split; [vm_compute; reflexivity|].
  split; [reflexivity|]. split; [reflexivity|].
  match goal with |- _ <= modifiedBlocks ?s <= _ /\ _ =>
    assert (reachable fs_scenario dev_ok one_thread disk_scenario s) as Hr
      by (by_schedule (scenario_schedule 6));
    destruct (progress_counters _ _ _ _ wf_scenario s Hr)
      as (Hle & Hbound & _)
  end.
  split; [exact Hle|exact Hbound].
Defined.

(** C6 as the specification states it fails: the superblock of this
    volume announces no free block, the bitmap marks its only block free,
    and [freeBlocks] reaches 1. *)
Lemma free_count_exceeds_superblock :
  exists s,
    run (fs_free 1 0) dev_ok one_thread [W0; Main; W0; Main; W0; W0]
        (init (fs_free 1 0) one_thread zeros) = Some s /\
    freeBlocks s = 1 /\ s_free_blocks_count (fs_free 1 0) = 0 /\
    ~ freeBlocks s <= s_free_blocks_count (fs_free 1 0).
Proof.
  eexists. split; [vm_compute; reflexivity|].
  split; [reflexivity|]. split; [reflexivity|]. simpl. lia.
Qed.

(** The scenario swept with and without [-n]: the same counters, 4 and 2,
    and in dry-run mode blocks 4 and 6 keep their content. *)
Lemma dry_run_same_counters_witness :
  wf_config fs_scenario one_thread /\
  exists sd sn,
    run fs_scenario dev_ok (with_dryrun 1 one_thread) (scenario_schedule 5)
        (init fs_scenario (with_dryrun 1 one_thread) disk_scenario)
      = Some sd /\
    run fs_scenario dev_ok (with_dryrun 0 one_thread) (scenario_schedule 6)
        (init fs_scenario (with_dryrun 0 one_thread) disk_scenario)
      = Some sn /\
    freeBlocks sn = 4 /\ modifiedBlocks sn = 2 /\
    disk sn 4 = [0; 0; 0; 0] /\ disk sd 4 = [0; 7; 0; 0] /\
    freeBlocks sd = freeBlocks sn /\ modifiedBlocks sd = modifiedBlocks sn.
Proof.
  split; [exact wf_scenario|].
  eexists. eexists.
  split; [vm_compute; reflexivity|]. split; [vm_compute; reflexivity|].
  split; [reflexivity|]. split; [reflexivity|].
  split; [reflexivity|]. split; [reflexivity|].
  match goal with |- freeBlocks ?sd = freeBlocks ?sn /\ _ =>
    assert (reachable fs_scenario dev_ok (with_dryrun 1 one_thread)
              disk_scenario sd) as Hd
      by (by_schedule (scenario_schedule 5));
    assert (reachable fs_scenario dev_ok (with_dryrun 0 one_thread)
              disk_scenario sn) as Hn
      by (by_schedule (scenario_schedule 6));
    apply (proj2 (dry_run_same_counters fs_scenario dev_ok one_thread
                    disk_scenario 1 wf_scenario ltac:(lia)) sd sn Hd Hn)
  end.
  - split; [simpl; lia|]. intros [|[|w]] pc Hw; simpl in Hw; by simplify_eq.
  - split; [simpl; lia|]. intros [|[|w]] pc Hw; simpl in Hw; by simplify_eq.
Defined.

(** In the scenario every block that was tested, read or written is one of
    the claimed numbers. *)
Lemma block_number_across_handoff_witness :
  wf_config fs_scenario one_thread /\
  exists s,
    run fs_scenario dev_ok one_thread (scenario_schedule 6)
        (init fs_scenario one_thread disk_scenario) = Some s /\
    WriteBlk 0 6 true ∈ io_log s /\
    exists b, (0%nat, b) ∈ handoff s /\ 0 <= b < 2 ^ 32 /\ (b < 2 ^ 31 -> 6 = b).
Proof.
  split; [exact wf_scenario|].
  eexists. split; [vm_compute; reflexivity|].
  match goal with |- _ ∈ io_log ?s /\ _ =>
    assert (reachable fs_scenario dev_ok one_thread disk_scenario s) as Hr
      by (by_schedule (scenario_schedule 6));
    destruct (block_number_across_handoff _ _ _ _ wf_scenario s Hr)
      as (_ & Hev & _);
    assert (WriteBlk 0 6 true ∈ io_log s) as Hin
      by (simpl; rewrite !elem_of_cons; tauto)
  end.
  split; [exact Hin|].
  destruct (Hev _ Hin) as (b & Hb & Hr32 & Hlow & _).
  exists b. split; [exact Hb|]. split; [exact Hr32|exact Hlow].
Defined.

(** ** Runs with a failed block read *)

(** C2 (the code departs from it).  The read of block 0 fails in each of
    these runs on all-free volumes.
    - One worker, one block: the worker prints its message and ends, main
      joins it and returns 0.
    - Two workers, two blocks: after the failure block 1 is still handed
      out, read and rewritten by the other worker.
    - One worker, two blocks: the only worker has ended, main has
      published block 1 and waits for its acceptance, and no thread can
      move: the process does not exit at all. *)
Theorem read_error_does_not_abort :
  (exists s,
     run (fs_free 1 1) dev_bad0 one_thread
         [W0; Main; W0; Main; W0; W0; W0; W0; W0; Main; Main; Main]
         (init (fs_free 1 1) one_thread sevens) = Some s /\
     io_log s = [TestBitmap 0 0; ReadBlk 0 0 false] /\
     stderr s = ["error while reading block"%string] /\
     workers s = [WDone] /\ main_pc s = MExit 0) /\
  (exists s,
     run (fs_free 2 2) dev_bad0 two_threads
         [W0; W1; Main; W0; Main; W0; W0; W0; W0; W0; Main; W1; Main;
          W1; W1; W1; W1; W1; W1]
         (init (fs_free 2 2) two_threads sevens) = Some s /\
     io_log s = [TestBitmap 0 0; ReadBlk 0 0 false; TestBitmap 1 1;
                 ReadBlk 1 1 true; WriteBlk 1 1 true] /\
     workers s = [WDone; WWait] /\
     disk s 1 = [0; 0; 0; 0] /\ modifiedBlocks s = 1) /\
  (exists s,
     run (fs_free 2 2) dev_bad0 one_thread
         [W0; Main; W0; Main; W0; W0; W0; W0; W0; Main]
         (init (fs_free 2 2) one_thread sevens) = Some s /\
     workers s = [WDone] /\ main_pc s = MAccepted 1 /\ do_job s = 1 /\
     step (fs_free 2 2) dev_bad0 one_thread Main s = None /\
     step (fs_free 2 2) dev_bad0 one_thread W0 s = None).
Proof.
  split; [|split]; eexists; (split; [vm_compute; reflexivity|]);
    repeat split.
Qed.


(** ** The report of a dry run *)

(** C7 (the code departs from it).  One free block holding non-fill bytes,
    one worker, [-v], and a device on which the write of block 0 fails.
    - Without [-n] the write fails, the worker thread returns, main joins
      it, reports 1/1/1 (line 258) and returns 0.
    - With [-n] the worker counts the block as free and as modified, skips
      the write (line 102) and goes back to wait at lines 54-55; main sets
      [quit] and blocks at the first join (the defect of C1): the counters
      are 1 and 1, and they are never reported, under any schedule.
    - On a device without failures main never gets to line 258 either,
      with or without [-n]. *)
Theorem dry_run_report_never_comes :
  (exists s,
     run (fs_free 1 1) dev_wbad0 one_thread
         [W0; Main; W0; Main; W0; W0; W0; W0; W0; W0; W0; Main; Main; Main]
         (init (fs_free 1 1) one_thread sevens) = Some s /\
     io_log s = [TestBitmap 0 0; ReadBlk 0 0 true; WriteBlk 0 0 false] /\
     main_pc s = MExit 0 /\ summary s = Some (1, 1, 1)) /\
  (exists s,
     run (fs_free 1 1) dev_wbad0 (with_dryrun 1 one_thread)
         [W0; Main; W0; Main; W0; W0; W0; W0; W0; Main]
         (init (fs_free 1 1) (with_dryrun 1 one_thread) sevens) = Some s /\
     io_log s = [TestBitmap 0 0; ReadBlk 0 0 true] /\
     freeBlocks s = 1 /\ modifiedBlocks s = 1 /\
     main_pc s = MJoin 0 /\ workers s = [WWait] /\ summary s = None /\
     forall l,
       step (fs_free 1 1) dev_wbad0 (with_dryrun 1 one_thread) l s = None) /\
  (forall s,
     reachable (fs_free 1 1) dev_wbad0 (with_dryrun 1 one_thread) sevens s ->
     summary s = None /\ forall c, main_pc s <> MExit c) /\
  (forall v s,
     reachable (fs_free 1 1) dev_ok (with_dryrun v one_thread) sevens s ->
     summary s = None /\ forall c, main_pc s <> MExit c).
Proof.
  assert (forall v, wf_config (fs_free 1 1) (with_dryrun v one_thread))
    as Hwf by (intros v; unfold wf_config; simpl; lia).
  split; [|split; [|split]].
  - eexists. split; [vm_compute; reflexivity|]. repeat split.
  - eexists. split; [vm_compute; reflexivity|].
    do 6 (split; [reflexivity|]).
    intros [|[|w]]; reflexivity.
  - intros s Hr.
    destruct (dry_run_never_returns (fs_free 1 1) dev_wbad0
                (with_dryrun 1 one_thread) sevens s (Hwf 1)
                ltac:(simpl; lia) (fun _ => eq_refl) Hr)
      as (_ & Hne & Hsum).
    done.
  - intros v s Hr.
    destruct (never_exits (fs_free 1 1) dev_ok (with_dryrun v one_thread)
                sevens s (Hwf v) (fun _ => eq_refl) (fun _ => eq_refl) Hr)
      as (_ & Hne & Hsum).
    done.
Qed.

(** The dry run of C7 after the worker has counted the block. *)
Lemma dry_run_report_never_comes_witness :
  exists s,
    run (fs_free 1 1) dev_wbad0 (with_dryrun 1 one_thread)
        [W0; Main; W0; Main; W0; W0; W0; W0]
        (init (fs_free 1 1) (with_dryrun 1 one_thread) sevens) = Some s /\
    modifiedBlocks s = 1 /\
    summary s = None /\ forall c, main_pc s <> MExit c.
Proof.
  eexists. split; [vm_compute; reflexivity|]. split; [reflexivity|].
  match goal with |- summary ?s = None /\ _ =>
    assert (reachable (fs_free 1 1) dev_wbad0 (with_dryrun 1 one_thread)
              sevens s) as Hr
      by (by_schedule [W0; Main; W0; Main; W0; W0; W0; W0]);
    exact (proj1 (proj2 (proj2 dry_run_report_never_comes)) s Hr)
  end.
Defined.

(** C4 (the code departs from it).  Two workers, two free blocks, the read
    of block 0 fails.  Worker 0 reaches line 116 without the mutex and reads
    [runningThreads = 1]; worker 1 then claims block 1 under the mutex
    (the count becomes 2); worker 0 writes back 0; when worker 1 finishes
    its job, line 111 makes the count -1. *)
Theorem unlocked_decrement_breaks_the_count :
  exists s,
    run (fs_free 2 2) dev_bad0 two_threads
        [W0; W1; Main; W0; Main; W0; W0; W0; W0; Main; W1; W0;
         W1; W1; W1; W1; W1; W1]
        (init (fs_free 2 2) two_threads sevens) = Some s /\
    workers s = [WDone; WWait] /\
    runningThreads s = -1 /\
    ~ (0 <= runningThreads s <= max_threads two_threads).
Proof.
  eexists. split; [vm_compute; reflexivity|].
  split; [reflexivity|]. split; [reflexivity|]. simpl. lia.
Qed.

(** ** The further properties on concrete volumes *)

Ltac no_such_event :=
  let H := fresh in
  intros ? ? H; simpl in H;
  repeat (apply elem_of_cons in H as [H|H]; [discriminate H|]);
  by apply elem_of_nil in H.

Ltac idle_workers :=
  split; [simpl; lia|];
  let w := fresh in let pc := fresh in let H := fresh in
  intros w pc H; repeat (destruct w as [|w]; simpl in H; simplify_eq);
  done.

(** After the scenario sweep block 3, which is in use, holds what it
    held. *)
Lemma only_claimed_free_blocks_change_witness :
  exists s,
    run fs_scenario dev_ok one_thread (scenario_schedule 6)
        (init fs_scenario one_thread disk_scenario) = Some s /\
    disk s 4 = [0; 0; 0; 0] /\ disk s 3 = disk_scenario 3.
Proof.
  eexists. split; [vm_compute; reflexivity|]. split; [reflexivity|].
  match goal with |- disk ?s _ = _ =>
    assert (reachable fs_scenario dev_ok one_thread disk_scenario s) as Hr
      by (by_schedule (scenario_schedule 6));
    exact (proj1 (proj2 (only_claimed_free_blocks_change _ _ _ _
                           wf_scenario s 3 Hr)) eq_refl)
  end.
Defined.

(** The scenario sweep ends with 4 free blocks seen and 2 rewritten, the
    numbers of free and of dirty free blocks of the range. *)
Lemma completed_sweep_counts_witness :
  exists s,
    run fs_scenario dev_ok one_thread (scenario_schedule 6)
        (init fs_scenario one_thread disk_scenario) = Some s /\
    free_in_range fs_scenario = 4 /\
    dirty_in_range fs_scenario dev_ok one_thread disk_scenario = 2 /\
    freeBlocks s = free_in_range fs_scenario /\
    modifiedBlocks s =
      dirty_in_range fs_scenario dev_ok one_thread disk_scenario.
Proof.
  eexists. split; [vm_compute; reflexivity|].
  split; [reflexivity|]. split; [reflexivity|].
  match goal with |- freeBlocks ?s = _ /\ _ =>
    assert (reachable fs_scenario dev_ok one_thread disk_scenario s) as Hr
      by (by_schedule (scenario_schedule 6));
    apply (proj2 (proj2 (completed_sweep_counts _ _ _ _ wf_scenario s Hr)))
  end.
  idle_workers.
Defined.

(** After the scenario sweep block 6 holds zeros only. *)
Lemma completed_sweep_fills_free_blocks_witness :
  exists s,
    run fs_scenario dev_ok one_thread (scenario_schedule 6)
        (init fs_scenario one_thread disk_scenario) = Some s /\
    disk_scenario 6 = [0; 7; 0; 0] /\
    all_fill fs_scenario one_thread (disk s (to_int 6)).
Proof.
  eexists. split; [vm_compute; reflexivity|]. split; [reflexivity|].
  match goal with |- all_fill _ _ (disk ?s _) =>
    assert (reachable fs_scenario dev_ok one_thread disk_scenario s) as Hr
      by (by_schedule (scenario_schedule 6));
    apply (completed_sweep_fills_free_blocks _ _ _ _ wf_scenario s Hr)
  end.
  - idle_workers.
  - reflexivity.
  - no_such_event.
  - no_such_event.
  - simpl; lia.
  - reflexivity.
Defined.

(** The scenario swept twice: the second sweep finds the four free blocks
    clean and rewrites none. *)
Lemma second_sweep_rewrites_nothing_witness :
  exists s1 s2,
    run fs_scenario dev_ok one_thread (scenario_schedule 6)
        (init fs_scenario one_thread disk_scenario) = Some s1 /\
    run fs_scenario dev_ok one_thread (scenario_schedule 4)
        (init fs_scenario one_thread (disk s1)) = Some s2 /\
    modifiedBlocks s1 = 2 /\ freeBlocks s2 = 4 /\
    modifiedBlocks s2 = 0 /\ (forall blk, disk s2 blk = disk s1 blk).
Proof.
  eexists. eexists.
  split; [vm_compute; reflexivity|]. split; [vm_compute; reflexivity|].
  split; [reflexivity|]. split; [reflexivity|].
  match goal with |- modifiedBlocks ?s2 = 0 /\ (forall blk, _ = disk ?s1 blk) =>
    assert (reachable fs_scenario dev_ok one_thread disk_scenario s1) as Hr1
      by (by_schedule (scenario_schedule 6));
    assert (reachable fs_scenario dev_ok one_thread (disk s1) s2) as Hr2
      by (by_schedule (scenario_schedule 4));
    assert (sweep_done s1) as Hdone by idle_workers;
    destruct (second_sweep_rewrites_nothing fs_scenario dev_ok dev_ok
                one_thread disk_scenario s1 s2 wf_scenario eq_refl Hr1 Hdone
                ltac:(no_such_event) ltac:(no_such_event) Hr2)
      as (Hm & Hd & _)
  end.
  split; [exact Hm|exact Hd].
Defined.

(** In the log of the scenario sweep the write of block 6 stands at
    position 11, after the read of block 6. *)
Lemma each_call_once_and_in_order_witness :
  exists s,
    run fs_scenario dev_ok one_thread (scenario_schedule 6)
        (init fs_scenario one_thread disk_scenario) = Some s /\
    io_log s !! 11%nat = Some (WriteBlk 0 6 true) /\
    exists i, (i < 11)%nat /\ io_log s !! i = Some (ReadBlk 0 6 true).
Proof.
  eexists. split; [vm_compute; reflexivity|]. split; [reflexivity|].
  match goal with |- exists i, _ /\ io_log ?s !! _ = _ =>
    assert (reachable fs_scenario dev_ok one_thread disk_scenario s) as Hr
      by (by_schedule (scenario_schedule 6));
    exact (proj2 (proj2 (each_call_once_and_in_order _ _ _ _ wf_scenario
                           s Hr)) 11%nat 0%nat 6 true eq_refl)
  end.
Defined.

(** While worker 0 is about to write block 4 one job is running. *)
Lemma running_count_without_failures_witness :
  exists s,
    run fs_scenario dev_ok one_thread schedule_to_write4
        (init fs_scenario one_thread disk_scenario) = Some s /\
    runningThreads s = 1 /\
    runningThreads s = sumZ active (workers s) /\
    0 <= runningThreads s <= max_threads one_thread.
Proof.
  eexists. split; [vm_compute; reflexivity|]. split; [reflexivity|].
  match goal with |- runningThreads ?s = _ /\ _ =>
    assert (reachable fs_scenario dev_ok one_thread disk_scenario s) as Hr
      by (by_schedule schedule_to_write4);
    exact (running_count_without_failures fs_scenario dev_ok one_thread
             disk_scenario wf_scenario s
             (fun _ => eq_refl) (fun _ => eq_refl) Hr)
  end.
Defined.

(** After the scenario sweep main is at its first join and cannot move. *)
Lemma no_return_without_io_failure_witness :
  exists s,
    run fs_scenario dev_ok one_thread (scenario_schedule 6)
        (init fs_scenario one_thread disk_scenario) = Some s /\
    main_pc s = MJoin 0 /\
    main_step fs_scenario dev_ok one_thread s = None.
Proof.
  eexists. split; [vm_compute; reflexivity|]. split; [reflexivity|].
  match goal with |- main_step _ _ _ ?s = None =>
    assert (reachable fs_scenario dev_ok one_thread disk_scenario s) as Hr
      by (by_schedule (scenario_schedule 6));
    exact (proj2 (proj2 (proj2 (no_return_without_io_failure fs_scenario
             dev_ok one_thread disk_scenario wf_scenario s (fun _ => eq_refl) (fun _ => eq_refl) Hr))
             0 eq_refl))
  end.
Defined.

(** One block, one worker, the read fails and the close succeeds: main
    returns 0 and reports 0 rewritten, 1 free, 1 block. *)
Lemma return_value_of_main_witness :
  exists s,
    run (fs_free 1 1) dev_bad0 one_thread
        [W0; Main; W0; Main; W0; W0; W0; W0; W0; Main; Main; Main]
        (init (fs_free 1 1) one_thread sevens) = Some s /\
    main_pc s = MExit 0 /\
    summary s = Some (0, 1, 1) /\
    0 = (if close_fails dev_bad0 then 1 else 0) /\
    forall l, step (fs_free 1 1) dev_bad0 one_thread l s = None.
Proof.
  assert (wf_config (fs_free 1 1) one_thread) as Hwf
    by (unfold wf_config; simpl; lia).
  eexists. split; [vm_compute; reflexivity|].
  split; [reflexivity|]. split; [reflexivity|].
  match goal with |- _ /\ (forall l, step _ _ _ l ?s = None) =>
    assert (reachable (fs_free 1 1) dev_bad0 one_thread sevens s) as Hr
      by (by_schedule [W0; Main; W0; Main; W0; W0; W0; W0; W0; Main; Main;
                       Main]);
    destruct (return_value_of_main _ _ _ _ Hwf s 0 Hr eq_refl)
      as (Hc & _ & _ & Hstop)
  end.
  split; [exact Hc|exact Hstop].
Defined.

(** [-f 0x1F -t 4 -n]: fill value 31, four threads, dry run. *)
Lemma started_sweep_has_checked_options_witness :
  (main_setup [("f"%char, "0x1F"%string); ("t"%char, "4"%string);
               ("n"%char, EmptyString)] 1 quiet_env).2 =
    StartSweep {| dryrun := 1; verbose := 0; fillval := 31;
                  max_threads := 4 |} /\
  0 <= 31 <= 255 /\ 1 <= 4 <= 1024 * 1024.
Proof.
  split; [reflexivity|].
  destruct (started_sweep_has_checked_options
              [("f"%char, "0x1F"%string); ("t"%char, "4"%string);
               ("n"%char, EmptyString)] 1 quiet_env _ eq_refl)
    as (Hf & Ht & _).
  split; [exact Hf|exact Ht].
Defined.

(** [-f abc -n]: the first option is rejected, [-n] is not looked at. *)
Lemma options_are_handled_in_order_witness :
  parse_options [("f"%char, "abc"%string)] default_options =
    Rejected "invalid argument to -f" /\
  main_setup ([("f"%char, "abc"%string)] ++ [("n"%char, EmptyString)]) 1
             quiet_env =
    ([], ["invalid argument to -f"%string], Return 1).
Proof.
  split; [reflexivity|].
  exact (proj2 (options_are_handled_in_order
                  [("f"%char, "abc"%string)] [("n"%char, EmptyString)]
                  default_options) _ 1 quiet_env eq_refl).
Defined.

(** A volume mounted read-only is swept, and opened read-write. *)
Lemma sweep_starts_exactly_when_witness :
  Z.land (mount_flags ro_mounted_env) EXT2_MF_MOUNTED <> 0 /\
  (main_setup [] 1 ro_mounted_env).2 = StartSweep default_options /\
  main_setup [] 1 ro_mounted_env = (setup_calls 1, [], StartSweep default_options).
Proof.
  split; [by vm_compute|].
  assert ((main_setup [] 1 ro_mounted_env).2 = StartSweep default_options)
    as Hs.
  { apply (proj2 (proj1 (sweep_starts_exactly_when [] 1 ro_mounted_env)
                    default_options)).
    repeat split; try reflexivity. right. by vm_compute. }
  split; [exact Hs|].
  exact (proj1 (proj2 (sweep_starts_exactly_when [] 1 ro_mounted_env)) _ Hs).
Defined.

(** A volume mounted read-write, and a volume whose mount state cannot be
    determined, are refused after the mount check alone. *)
Lemma detected_errors_exit_early_witness :
  main_setup [] 1 rw_mounted_env =
    ([CheckIfMounted], ["filesystem is mounted rw"%string], Return 1) /\
  main_setup [] 1 unknown_mount_env =
    ([CheckIfMounted],
     ["failed to determine filesystem mount state"%string], Return 1).
Proof.
  split.
  - apply (proj2 (proj2 (proj2
             (detected_errors_exit_early [] 1 rw_mounted_env)))
             default_options eq_refl eq_refl eq_refl).
    + by vm_compute.
    + reflexivity.
  - apply (proj1 (proj2 (proj2
             (detected_errors_exit_early [] 1 unknown_mount_env)))
             default_options eq_refl eq_refl).
    by vm_compute.
Defined.

(** In [0; 0; 7; 0] the loop stops at index 2. *)
Lemma fill_test_finds_first_difference_witness :
  scan [0; 0; 7; 0] 0 0 4 = 2%nat /\ nth 2 [0; 0; 7; 0] 0 <> 0.
Proof.
  split; [reflexivity|].
  apply (proj1 (proj2 (proj2 (fill_test_finds_first_difference
                                [0; 0; 7; 0] 0 4)))).
  simpl; lia.
Defined.

(** Four zero bytes pass the test for fill value 0. *)
Lemma written_buffer_passes_fill_test_witness :
  empty 4 0 = [0; 0; 0; 0] /\ already_filled 4 0 (empty 4 0) = true.
Proof.
  split; [reflexivity|].
  apply (written_buffer_passes_fill_test 4 0); lia.
Defined.

(** One block, one worker, no [-v] and a failing read: stderr holds the
    worker's message, and the worker that is done has a failed call in the
    log. *)
Lemma error_messages_match_failures_witness :
  exists s,
    run (fs_free 1 1) dev_bad0 default_options
        [W0; Main; W0; Main; W0; W0; W0; W0; W0; Main; Main; Main]
        (init (fs_free 1 1) default_options sevens) = Some s /\
    verbose default_options = 0 /\
    stderr s = ["error while reading block"%string] /\
    workers s !! 0%nat = Some WDone /\
    (exists ms, stderr s = ms ++ close_msg (main_pc s) /\
                ms ≡ₚ omap ev_msg (io_log s)) /\
    exists e, e ∈ io_log s /\ ev_worker e = 0%nat /\ ev_msg e <> None.
Proof.
  assert (wf_config (fs_free 1 1) default_options) as Hwf
    by (unfold wf_config; simpl; lia).
  eexists. split; [vm_compute; reflexivity|].
  split; [reflexivity|]. split; [reflexivity|]. split; [reflexivity|].
  match goal with |- _ /\ exists e, e ∈ io_log ?s /\ _ =>
    assert (reachable (fs_free 1 1) dev_bad0 default_options sevens s)
      as Hr
      by (by_schedule [W0; Main; W0; Main; W0; W0; W0; W0; W0; Main; Main;
                       Main]);
    destruct (error_messages_match_failures (fs_free 1 1) dev_bad0
                default_options sevens Hwf s Hr) as (Hmsg & Hout & _)
  end.
  split; [exact (proj1 (Hmsg eq_refl))|].
  exact (proj1 (Hout 0%nat WDone eq_refl) eq_refl).
Defined.

(** After the scenario sweep main is at its first join, the worker waits,
    and nothing can move. *)
Lemma sweep_blocks_only_at_the_joins_witness :
  exists s,
    run fs_scenario dev_ok one_thread (scenario_schedule 6)
        (init fs_scenario one_thread disk_scenario) = Some s /\
    quiescent s /\
    forall l, step fs_scenario dev_ok one_thread l s = None.
Proof.
  eexists. split; [vm_compute; reflexivity|].
  match goal with |- quiescent ?s /\ _ =>
    assert (reachable fs_scenario dev_ok one_thread disk_scenario s) as Hr
      by (by_schedule (scenario_schedule 6));
    assert (quiescent s) as Hq
  end.
  { repeat (split; [reflexivity|]).
    intros w pc H. repeat (destruct w as [|w]; simpl in H; simplify_eq).
    done. }
  split; [exact Hq|].
  exact (proj2 (sweep_blocks_only_at_the_joins fs_scenario dev_ok one_thread
                  disk_scenario wf_scenario _ (fun _ => eq_refl)
                  (fun _ => eq_refl) Hr) Hq).
Defined.

(** The scenario sweep stays within the bound for ten blocks and one
    thread. *)
Lemma every_run_is_bounded_witness :
  exists s,
    run fs_scenario dev_ok one_thread (scenario_schedule 6)
        (init fs_scenario one_thread disk_scenario) = Some s /\
    Z.of_nat (length (scenario_schedule 6)) <= 186.
Proof.
  assert (exists s, run fs_scenario dev_ok one_thread (scenario_schedule 6)
                      (init fs_scenario one_thread disk_scenario) = Some s)
    as [s Hs] by (eexists; vm_compute; reflexivity).
  exists s. split; [exact Hs|].
  exact (every_run_is_bounded fs_scenario dev_ok one_thread disk_scenario
           wf_scenario (scenario_schedule 6) s Hs).
Defined.

(** From its start the scenario sweep can be completed, with 4 free blocks
    seen and 2 rewritten. *)
Lemma sweep_can_always_complete_witness :
  free_in_range fs_scenario = 4 /\
  dirty_in_range fs_scenario dev_ok one_thread disk_scenario = 2 /\
  exists tr s',
    run fs_scenario dev_ok one_thread tr
        (init fs_scenario one_thread disk_scenario) = Some s' /\
    quiescent s' /\ freeBlocks s' = free_in_range fs_scenario /\
    modifiedBlocks s' =
      dirty_in_range fs_scenario dev_ok one_thread disk_scenario.
Proof.
  split; [reflexivity|]. split; [reflexivity|].
  destruct (sweep_can_always_complete fs_scenario dev_ok one_thread
              disk_scenario wf_scenario _ (fun _ => eq_refl)
              (fun _ => eq_refl) (reach_init _ _ _ _))
    as (tr & s' & Hrun & Hq & _ & Hf & Hm).
  by exists tr, s'.
Defined.
